(** * tblog: the Telegram update fetcher (scripts/fetch_telegram_updates.py)

    A shallow embedding of [TelegramFetcher] and of the two remote
    services it talks to (the Telegram Bot API and the GitHub contents
    API), followed by the properties of one ingestion run: what ends up
    in [data/pending-messages.json], what ends up in
    [data/last-update-id.json], and what happens when a request fails.

    Python dictionaries that the script uses as structs are records here;
    the script's methods are functions in a reader/state/exception monad
    over the remote services; [print] and every HTTP request leave an
    event in a trace, so that "logs the error" and "performs no write"
    are statements about that trace. *)

From stdpp Require Import gmap strings list pretty.
From Stdlib Require Import ZArith Lia Ascii.

Local Open Scope Z_scope.

(** ** Telegram objects, as the script reads them *)

Module Telegram.

Record User := {
  user_id : Z;
  is_bot : bool;
  username : option string;
  first_name : option string;
  last_name : option string;
}.

Record Chat := { chat_id : Z }.

Record PhotoSize := {
  file_id : string;
  file_size : option Z;
  width : Z;
  height : Z;
}.

(** [message_id], [date] and [chat] are always present in a Bot API
    message; the other keys are optional. *)
Record Message := {
  message_id : Z;
  date : Z;
  text : option string;
  caption : option string;
  photo : option (list PhotoSize);
  sender : option User;          (* the key "from" *)
  chat : Chat;
}.

Record Update := {
  update_id : Z;
  message : option Message;
}.

End Telegram.
Import Telegram.

(** ** The documents the script writes *)

(** The dictionary built under "from_user". *)
Record from_user := {
  fu_id : Z;
  fu_username : option string;
  fu_first_name : option string;
  fu_last_name : option string;
}.

(** The dictionary returned by [_process_image]. *)
Record image_info := {
  img_filename : string;
  img_path : string;
  img_caption : string;
  img_file_id : string;
  img_file_size : option Z;
}.

(** The dictionary [message_data] built by [process_message].  The two
    ISO strings are kept as the instants they render: [md_timestamp] is
    the message's own [date], [md_created_at] a reading of the clock. *)
Record message_data := {
  md_id : string;
  md_telegram_message_id : Z;
  md_content : string;
  md_images : list image_info;
  md_timestamp : Z;
  md_status : string;
  md_tags : list string;
  md_created_at : Z;
  md_chat_id : Z;
  md_from_user : from_user;
}.

(** The contents of data/pending-messages.json. *)
Record pending_data := {
  messages : list message_data;
  lastUpdated : Z;
  version : string;
}.

(** The contents of data/last-update-id.json. *)
Record checkpoint := {
  last_update_id : Z;
  updated_at : Z;
}.

(** A JSON document of one of the two shapes above. *)
Inductive json :=
| JCheckpoint (c : checkpoint)
| JPending (d : pending_data).

(** The text of a stored file: the [json.dumps] of a document, or bytes
    that [json.loads] rejects (an uploaded image, a damaged file). *)
Inductive filetext :=
| Dumps (j : json)
| Blob (bytes : string).

(** ** The remote services *)

(** A file of the repository with its version tag. *)
Record file := { content : filetext; sha : nat }.

Inductive request :=
| GetUpdates (offset : Z)
| GetFile (fid : string)
| Download (file_path : string)
| ContentsGET (path : string)
| ContentsPUT (path : string) (body : filetext) (expected : option nat)
    (commit_message : string).

Inductive response :=
| Updates (us : list Update)
| FileInfo (file_path : option string)
| Bytes (data : string)
| Contents (f : file)
| Committed (new_sha : nat).

(** What becomes of one HTTP request: it reaches the service, it is
    answered with an error status, or the connection fails. *)
Inductive outcome :=
| Served
| Status (code : Z)
| Unreachable.

Inductive exn :=
| HTTPError (code : Z)
| URLError
| JSONDecodeError
| KeyError (key : string)
| IndexError
| ValueError
| SystemExit (code : Z).

(** The lines the script prints. *)
Inductive line :=
| CouldNotLoad (e : exn)
| ErrorSaving (e : exn)
| HttpErrorLine (code : Z)
| UrlErrorLine
| GitHubApiError (code : Z)
| ErrorGettingFile (path : string) (e : exn)
| FetchingFrom (offset : Z)
| UploadedImage (filename : string)
| ErrorUploadingImage (e : exn)
| ErrorProcessingImage (e : exn)
| ErrorParsingPending
| AddedToQueue (id : string)
| Starting
| NoNewUpdates
| Found (n : nat)
| ErrorProcessingMessage (mid : Z) (e : exn)
| Processed (n : nat)
| ErrorInMain (e : exn).

Inductive event :=
| Sent (r : request)
| Printed (l : line).

(** The part of the world a run cannot change: what Telegram holds, which
    requests go through, and whether the four environment variables are
    set.  [fate n r] is the outcome of the [n]-th request of the process
    when that request is [r]. *)
Record remote := {
  tg_updates : Z -> list Update;
  tg_files : string -> option string;
  tg_blobs : string -> string;
  fate : nat -> request -> outcome;
  environ : bool;
}.

(** The part that evolves: the repository, the number of requests sent so
    far, the clock, and the trace of requests and printed lines. *)
Record state := {
  files : gmap string file;
  commits : nat;
  sent : nat;
  clock : Z;
  trace : list event;
}.

Definition log (ev : event) (s : state) : state :=
  {| files := files s; commits := commits s; sent := sent s;
     clock := clock s; trace := trace s ++ [ev] |}.

Definition count_request (r : request) (s : state) : state :=
  {| files := files s; commits := commits s; sent := S (sent s);
     clock := clock s; trace := trace s ++ [Sent r] |}.

Definition commit (path : string) (body : filetext) (s : state) : state :=
  {| files := <[path := {| content := body; sha := commits s |}]> (files s);
     commits := S (commits s); sent := sent s;
     clock := clock s; trace := trace s |}.

Definition tick (s : state) : state :=
  {| files := files s; commits := commits s; sent := sent s;
     clock := clock s + 1; trace := trace s |}.

(** ** The monad of the script *)

Inductive result (A : Type) :=
| Ok (a : A)
| Raise (e : exn).
Arguments Ok {A} a.
Arguments Raise {A} e.

Definition M (A : Type) : Type := remote -> state -> state * result A.

Definition ret {A} (a : A) : M A := fun _ s => (s, Ok a).

Definition raise {A} (e : exn) : M A := fun _ s => (s, Raise e).

Definition bind {A B} (m : M A) (k : A -> M B) : M B :=
  fun r s =>
    match m r s with
    | (s', Ok a) => k a r s'
    | (s', Raise e) => (s', Raise e)
    end.

Declare Scope py_scope.
Delimit Scope py_scope with py.
Notation "'let*' x ':=' m 'in' k" := (bind m (fun x => k))
  (at level 10, x name, m at level 100, k at level 200) : py_scope.
Notation "m ';;' k" := (bind m (fun _ => k))
  (at level 100, k at level 200, right associativity) : py_scope.
Local Open Scope py_scope.

(** [try: m except Exception as e: h e].  [SystemExit] is not an
    [Exception] and passes through. *)
Definition try_except {A} (m : M A) (h : exn -> M A) : M A :=
  fun r s =>
    match m r s with
    | (s', Ok a) => (s', Ok a)
    | (s', Raise (SystemExit c)) => (s', Raise (SystemExit c))
    | (s', Raise e) => h e r s'
    end.

Definition print (l : line) : M unit :=
  fun _ s => (log (Printed l) s, Ok tt).

(** [datetime.utcnow()]: reads the clock, which then moves on. *)
Definition utcnow : M Z :=
  fun _ s => (tick s, Ok (clock s)).

Definition getenv : M bool := fun r s => (s, Ok (environ r)).

(** *** The services' answers

    Telegram answers from what it holds.  GitHub answers [GET] with the
    file or 404, and accepts a [PUT] when the expected tag is the file's
    current one, or when no tag is given and the path is free; it refuses
    a missing tag on an existing file (422) and a tag that is not the
    current one (409). *)
Definition serve (rq : request) : M response :=
  fun r s =>
    match rq with
    | GetUpdates offset => (s, Ok (Updates (tg_updates r offset)))
    | GetFile fid => (s, Ok (FileInfo (tg_files r fid)))
    | Download p => (s, Ok (Bytes (tg_blobs r p)))
    | ContentsGET path =>
        match files s !! path with
        | Some f => (s, Ok (Contents f))
        | None => (s, Raise (HTTPError 404))
        end
    | ContentsPUT path body expected _ =>
        match files s !! path, expected with
        | None, None => (commit path body s, Ok (Committed (commits s)))
        | Some f, Some tag =>
            if decide (tag = sha f)
            then (commit path body s, Ok (Committed (commits s)))
            else (s, Raise (HTTPError 409))
        | Some _, None => (s, Raise (HTTPError 422))
        | None, Some _ => (s, Raise (HTTPError 409))
        end
    end.

(** [urllib.request.urlopen]: one request, whose fate the remote side
    decides. *)
Definition urlopen (rq : request) : M response :=
  fun r s =>
    let s' := count_request rq s in
    match fate r (sent s) rq with
    | Served => serve rq r s'
    | Status code => (s', Raise (HTTPError code))
    | Unreachable => (s', Raise URLError)
    end.

(** ** The script *)

Definition checkpoint_path : string := "data/last-update-id.json".
Definition pending_path : string := "data/pending-messages.json".

(** The object state: [self.last_update_id]. *)
Record TelegramFetcher := { self_last_update_id : Z }.

(** Python truthiness of the values the script tests. *)
Definition truthy_str (o : option string) : bool :=
  match o with
  | Some s => negb (String.eqb s "")
  | None => false
  end.

Definition truthy_photo (o : option (list PhotoSize)) : bool :=
  match o with
  | Some (_ :: _) => true
  | _ => false
  end.

Definition truthy_text (t : filetext) : bool :=
  match t with
  | Dumps _ => true
  | Blob b => negb (String.eqb b "")
  end.

Definition json_loads (t : filetext) : M json :=
  match t with
  | Dumps j => ret j
  | Blob _ => raise JSONDecodeError
  end.

Definition _make_request (rq : request) : M response :=
  try_except (urlopen rq)
    (fun e =>
       match e with
       | HTTPError code => print (HttpErrorLine code);; raise e
       | URLError => print UrlErrorLine;; raise e
       | _ => raise e
       end).

(** A Telegram answer that is not "ok" comes with an error status, so the
    test on [response.get("ok")] is the one [urlopen] already made. *)
Definition _telegram_request (rq : request) : M response :=
  _make_request rq.

(** Returns [None] on 404; prints and re-raises any other HTTP error; a
    failed connection propagates as it is. *)
Definition _github_request (rq : request) : M (option response) :=
  try_except (let* response := urlopen rq in ret (Some response))
    (fun e =>
       match e with
       | HTTPError code =>
           if decide (code = 404) then ret None
           else print (GitHubApiError code);; raise e
       | _ => raise e
       end).

Definition _github_get_file (path : string) : M (option filetext) :=
  try_except
    (let* response := _github_request (ContentsGET path) in
     match response with
     | Some (Contents f) => ret (Some (content f))
     | _ => ret None
     end)
    (fun e => print (ErrorGettingFile path e);; ret None).

Definition _github_create_or_update_file
    (path : string) (body : filetext) (message : string) : M unit :=
  let* sha :=
    try_except
      (let* response := _github_request (ContentsGET path) in
       match response with
       | Some (Contents f) => ret (Some (sha f))
       | _ => ret None
       end)
      (fun _ => ret None) in
  _github_request (ContentsPUT path body sha message);;
  ret tt.

Definition _load_last_update_id : M Z :=
  try_except
    (let* data := _github_get_file checkpoint_path in
     match data with
     | Some t =>
         if truthy_text t then
           let* content := json_loads t in
           match content with
           | JCheckpoint c => ret (last_update_id c)
           | JPending _ => ret 0
           end
         else ret 0
     | None => ret 0
     end)
    (fun e => print (CouldNotLoad e);; ret 0).

Definition _save_last_update_id (update_id : Z) : M unit :=
  try_except
    (let* now := utcnow in
     let content :=
       Dumps (JCheckpoint {| last_update_id := update_id; updated_at := now |}) in
     _github_create_or_update_file checkpoint_path content
       ("Update last processed update ID to " +:+ pretty update_id))
    (fun e => print (ErrorSaving e)).

Definition __init__ : M TelegramFetcher :=
  let* all_set := getenv in
  if all_set : bool then
    let* id := _load_last_update_id in
    ret {| self_last_update_id := id |}
  else raise ValueError.

Definition fetch_updates (self : TelegramFetcher) : M (list Update) :=
  print (FetchingFrom (self_last_update_id self + 1));;
  let* result := _telegram_request (GetUpdates (self_last_update_id self + 1)) in
  match result with
  | Updates us => ret us
  | _ => ret []
  end.

(** [f"msg_{message['date']}_{message['message_id']}"] *)
Definition derived_id (message : Message) : string :=
  "msg_" +:+ pretty (date message) +:+ "_" +:+ pretty (message_id message).

(** [message.get("text") or message.get("caption", "")] *)
Definition content_of (message : Message) : string :=
  match text message with
  | Some t => if String.eqb t "" then default "" (caption message) else t
  | None => default "" (caption message)
  end.

(** [message["photo"][-1]] *)
Definition select_photo (message : Message) : result PhotoSize :=
  match photo message with
  | Some variants =>
      match last variants with
      | Some p => Ok p
      | None => Raise IndexError
      end
  | None => Raise (KeyError "photo")
  end.

Definition lift {A} (x : result A) : M A := fun _ s => (s, x).

Definition _process_image (message : Message) (message_id : string)
    : M (option image_info) :=
  try_except
    (let* photo := lift (select_photo message) in
     let* file_info := _telegram_request (GetFile (file_id photo)) in
     match file_info with
     | FileInfo (Some file_path) =>
         let* response := urlopen (Download file_path) in
         let image_data :=
           match response with Bytes b => b | _ => "" end in
         let filename := message_id +:+ "_" +:+ file_id photo +:+ ".jpg" in
         let image_path :=
           "static/images/" +:+ message_id +:+ "/" +:+ filename in
         let* uploaded :=
           try_except
             (_github_request
                (ContentsPUT image_path (Blob image_data) None
                   ("Add image from Telegram message " +:+ message_id));;
              print (UploadedImage filename);;
              ret true)
             (fun e => print (ErrorUploadingImage e);; ret false) in
         if uploaded : bool then
           ret (Some {| img_filename := filename;
                        img_path := "/images/" +:+ message_id +:+ "/" +:+ filename;
                        img_caption := default "" (caption message);
                        img_file_id := file_id photo;
                        img_file_size := file_size photo |})
         else ret None
     | _ => ret None
     end)
    (fun e => print (ErrorProcessingImage e);; ret None).

Definition with_images (d : message_data) (imgs : list image_info)
    : message_data :=
  {| md_id := md_id d;
     md_telegram_message_id := md_telegram_message_id d;
     md_content := md_content d;
     md_images := imgs;
     md_timestamp := md_timestamp d;
     md_status := md_status d;
     md_tags := md_tags d;
     md_created_at := md_created_at d;
     md_chat_id := md_chat_id d;
     md_from_user := md_from_user d |}.

Definition process_message (message : Message) : M message_data :=
  let timestamp := date message in
  let message_id' := derived_id message in
  let* created_at := utcnow in
  let* from_user :=
    match sender message with
    | Some u => ret {| fu_id := user_id u;
                       fu_username := username u;
                       fu_first_name := first_name u;
                       fu_last_name := last_name u |}
    | None => raise (KeyError "from")
    end in
  let message_data :=
    {| md_id := message_id';
       md_telegram_message_id := message_id message;
       md_content := content_of message;
       md_images := [];
       md_timestamp := timestamp;
       md_status := "pending";
       md_tags := [];
       md_created_at := created_at;
       md_chat_id := chat_id (chat message);
       md_from_user := from_user |} in
  if truthy_photo (photo message) then
    let* image_info := _process_image message message_id' in
    match image_info with
    | Some i => ret (with_images message_data (md_images message_data ++ [i]))
    | None => ret message_data
    end
  else ret message_data.

Definition add_to_pending_queue (message_data : message_data) : M unit :=
  let* pending_json := _github_get_file pending_path in
  let* parsed :=
    match pending_json with
    | Some t =>
        if truthy_text t then
          try_except (let* j := json_loads t in ret (Some j))
            (fun e =>
               match e with
               | JSONDecodeError => print ErrorParsingPending;; ret None
               | _ => raise e
               end)
        else ret None
    | None => ret None
    end in
  let* pending :=
    match parsed with
    | Some j => ret j
    | None =>
        let* now := utcnow in
        ret (JPending {| messages := []; lastUpdated := now; version := "1.0" |})
    end in
  let* d :=
    match pending with
    | JPending d => ret d
    | JCheckpoint _ => raise (KeyError "messages")
    end in
  let* now := utcnow in
  let content :=
    Dumps (JPending {| messages := messages d ++ [message_data];
                       lastUpdated := now;
                       version := version d |}) in
  _github_create_or_update_file pending_path content
    ("Add pending message " +:+ md_id message_data);;
  print (AddedToQueue (md_id message_data)).

(** The two [continue] tests of the loop of [run]:
    [message.get("from", {}).get("is_bot")], and no text, no photo and no
    caption. *)
Definition from_bot (message : Message) : bool :=
  match sender message with
  | Some u => is_bot u
  | None => false
  end.

Definition no_content (message : Message) : bool :=
  negb (truthy_str (text message))
  && negb (truthy_photo (photo message))
  && negb (truthy_str (caption message)).

Definition skipped (message : Message) : bool :=
  from_bot message || no_content message.

(** The [try] block at the end of the loop body; returns the new
    [processed_count]. *)
Definition ingest (message : Message) (processed_count : nat) : M nat :=
  try_except
    (let* message_data := process_message message in
     add_to_pending_queue message_data;;
     ret (S processed_count))
    (fun e =>
       print (ErrorProcessingMessage (message_id message) e);;
       ret processed_count).

(** [for update in updates: ...], threading [processed_count] and
    [last_id]. *)
Fixpoint for_updates (updates : list Update) (processed_count : nat)
    (last_id : Z) : M (nat * Z) :=
  match updates with
  | [] => ret (processed_count, last_id)
  | update :: rest =>
      let last_id := update_id update in
      match message update with
      | None => for_updates rest processed_count last_id
      | Some message =>
          if from_bot message then for_updates rest processed_count last_id
          else if no_content message
          then for_updates rest processed_count last_id
          else
            let* processed_count := ingest message processed_count in
            for_updates rest processed_count last_id
      end
  end.

Definition run (self : TelegramFetcher) : M unit :=
  try_except
    (print Starting;;
     let* updates := fetch_updates self in
     match updates with
     | [] => print NoNewUpdates
     | _ :: _ =>
         print (Found (length updates));;
         let* loop := for_updates updates 0%nat (self_last_update_id self) in
         let processed_count := fst loop in
         let last_id := snd loop in
         (if last_id >? self_last_update_id self
          then _save_last_update_id last_id
          else ret tt);;
         print (Processed processed_count)
     end)
    (fun e => print (ErrorInMain e);; raise (SystemExit 1)).

(** [fetcher = TelegramFetcher(); fetcher.run()] *)
Definition main : M unit :=
  let* fetcher := __init__ in
  run fetcher.

(** The exit status of the process: zero unless [sys.exit] or an uncaught
    exception ended it. *)
Definition exit_status {A} (x : result A) : Z :=
  match x with
  | Ok _ => 0
  | Raise (SystemExit code) => code
  | Raise _ => 1
  end.

(** * The vocabulary of the properties *)

(** ** What is read off a state *)

(** The value in data/last-update-id.json, 0 when the file is absent or is
    not a checkpoint document. *)
Definition stored_checkpoint (s : state) : Z :=
  match files s !! checkpoint_path with
  | Some {| content := Dumps (JCheckpoint c) |} => last_update_id c
  | _ => 0
  end.

(** The records in data/pending-messages.json, none when the file is
    absent or is not a queue document. *)
Definition queue (s : state) : list message_data :=
  match files s !! pending_path with
  | Some {| content := Dumps (JPending d) |} => messages d
  | _ => []
  end.

Definition queue_ids (s : state) : list string := md_id <$> queue s.

(** The queue file is usable: anything but a checkpoint document, on
    which [pending_data["messages"]] raises. *)
Definition pending_usable (s : state) : Prop :=
  forall f c, files s !! pending_path = Some f ->
              content f <> Dumps (JCheckpoint c).

(** The requests of a trace, in the order they were sent. *)
Definition requests (t : list event) : list request :=
  omap (fun ev => match ev with Sent rq => Some rq | Printed _ => None end) t.

Definition path_of (rq : request) : option string :=
  match rq with
  | ContentsGET p | ContentsPUT p _ _ _ => Some p
  | _ => None
  end.

Definition is_put (rq : request) : bool :=
  match rq with
  | ContentsPUT _ _ _ _ => true
  | _ => false
  end.

(** The writes a trace attempts on [path]. *)
Definition puts_on (path : string) (t : list event) : list request :=
  filter (fun rq => is_put rq = true /\ path_of rq = Some path) (requests t).

(** The remote side lets every request on [path] through. *)
Definition serves (r : remote) (path : string) : Prop :=
  forall n rq, path_of rq = Some path -> fate r n rq = Served.

(** The messages of a batch that reach [process_message] and pass it:
    not skipped, and with a sender. *)
Definition kept (us : list Update) : list Message :=
  filter (fun m => skipped m = false) (omap message us).

Definition accepted (us : list Update) : list Message :=
  filter (fun m => is_Some (sender m)) (kept us).

(** ** Results and exceptions *)

(** [m] always returns a value. *)
Definition never_raises {A} (m : M A) : Prop :=
  forall r s, exists a, snd (m r s) = Ok a.

(** [m] never ends the process with [sys.exit]. *)
Definition no_exit {A} (m : M A) : Prop :=
  forall r s c, snd (m r s) <> Raise (SystemExit c).

(** The exceptions an [except Exception] clause catches. *)
Definition is_exception (e : exn) : Prop :=
  match e with
  | SystemExit _ => False
  | _ => True
  end.

(** ** Relations between the state before and the state after *)

(** The relation [R] holds from the state in which [m] starts to the
    state in which it ends. *)
Definition preserved (R : relation state) {A} (m : M A) : Prop :=
  forall r s, R s (fst (m r s)).

(** The requests of the attachment step. *)
Definition image_request (rq : request) : Prop :=
  match rq with
  | GetFile _ | Download _ => True
  | ContentsPUT p _ _ _ => exists rest, p = "static/images/" +:+ rest
  | _ => False
  end.

Definition off_path (p : string) (rq : request) : Prop :=
  path_of rq <> Some p.

(** The file at [p] is left as it was. *)
Definition keeps (p : string) : relation state :=
  fun s s' => files s' !! p = files s !! p.

(** No file is written. *)
Definition reads_only : relation state :=
  fun s s' => files s' = files s /\ commits s' = commits s.

(** The trace grows, by events among which no write on [p] is attempted. *)
Definition quiet_on (p : string) : relation state :=
  fun s s' => exists t, trace s' = trace s ++ t /\ puts_on p t = [].

(** The trace only grows. *)
Definition grows : relation state :=
  fun s s' => exists t, trace s' = trace s ++ t.

(** From [s] to [s'] exactly the requests [l] were sent. *)
Definition sends (l : list request) (s s' : state) : Prop :=
  requests (trace s') = requests (trace s) ++ l.

(** ** Records, batches and runs *)

(** The remote side answers every write on [path] with status [code]. *)
Definition refuses (r : remote) (path : string) (code : Z) : Prop :=
  forall n rq, is_put rq = true -> path_of rq = Some path ->
               fate r n rq = Status code.

(** The attachment cannot be had: the [getFile] request fails or names no
    file path, or the download fails.  [n] is the number of requests
    sent before the attachment step. *)
Definition attachment_fails (r : remote) (n : nat) (message : Message)
    : Prop :=
  forall p, select_photo message = Ok p ->
    fate r n (GetFile (file_id p)) <> Served
    \/ match tg_files r (file_id p) with
       | None => True
       | Some path => fate r (S n) (Download path) <> Served
       end.

(** The record [process_message] builds for a message sent by [u], at
    clock reading [created_at], with the images [imgs]. *)
Definition record_of (message : Message) (u : User) (created_at : Z)
    (imgs : list image_info) : message_data :=
  {| md_id := derived_id message;
     md_telegram_message_id := message_id message;
     md_content := content_of message;
     md_images := imgs;
     md_timestamp := date message;
     md_status := "pending";
     md_tags := [];
     md_created_at := created_at;
     md_chat_id := chat_id (chat message);
     md_from_user := {| fu_id := user_id u;
                        fu_username := username u;
                        fu_first_name := first_name u;
                        fu_last_name := last_name u |} |}.

(** [md] is the record of [message], for some clock reading and images. *)
Definition built_from (r : remote) (md : message_data) (message : Message)
    : Prop :=
  exists u t imgs,
    sender message = Some u
    /\ md = record_of message u t imgs
    /\ (truthy_photo (photo message) = false -> imgs = [])
    /\ ((forall n, attachment_fails r n message) -> imgs = []).

(** The [last_id] the loop ends with: the [update_id] of the last update
    of the batch, or the starting value for an empty batch. *)
Definition final_id (us : list Update) (start : Z) : Z :=
  foldl (fun _ u => update_id u) start us.

(** The batch is in ascending order of [update_id], as Telegram returns
    it. *)
Fixpoint ascending_from (low : Z) (us : list Update) : bool :=
  match us with
  | [] => true
  | u :: rest => (low <=? update_id u) && ascending_from (update_id u) rest
  end.

Definition ascending (us : list Update) : bool :=
  match us with
  | [] => true
  | u :: rest => ascending_from (update_id u) rest
  end.


(** The state once [run] has printed its first lines and sent
    [getUpdates]. *)
Definition fetched (self : TelegramFetcher) (s : state) : state :=
  count_request (GetUpdates (self_last_update_id self + 1))
    (log (Printed (FetchingFrom (self_last_update_id self + 1)))
       (log (Printed Starting) s)).

(** The state in which the loop of [run] starts on the batch [us]. *)
Definition loop_start (self : TelegramFetcher) (us : list Update)
    (s : state) : state :=
  log (Printed (Found (length us))) (fetched self s).

(** A sequence of runs of the process, each against its own remote side,
    the repository being handed from one to the next. *)
Definition runs (rs : list remote) (s : state) : state :=
  foldl (fun s r => fst (main r s)) s rs.

(** The reads of the checkpoint file are answered. *)
Definition checkpoint_readable (r : remote) : Prop :=
  forall n, fate r n (ContentsGET checkpoint_path) = Served.

(** ** The pieces of the queue merge and of the attachment step *)



(** [f"{message_id}_{photo['file_id']}.jpg"] *)
Definition image_filename (message_id : string) (p : PhotoSize) : string :=
  message_id +:+ "_" +:+ file_id p +:+ ".jpg".

(** [f"static/images/{message_id}/{filename}"] *)
Definition image_path (message_id : string) (p : PhotoSize) : string :=
  "static/images/" +:+ message_id +:+ "/" +:+ image_filename message_id p.




(** * Sample batches and remote sides *)

Module Sample.

Definition alice : User :=
  {| user_id := 7; is_bot := false; username := Some "alice";
     first_name := Some "Alice"; last_name := None |}.

Definition relay : User :=
  {| user_id := 8; is_bot := true; username := Some "relay_bot";
     first_name := Some "Relay"; last_name := None |}.

Definition hello : Message :=
  {| message_id := 5; date := 1700000000;
     text := Some "Hello #blogpost"; caption := None; photo := None;
     sender := Some alice; chat := {| chat_id := 9 |} |}.

Definition again : Message :=
  {| message_id := 6; date := 1700000060;
     text := Some "Second post"; caption := None; photo := None;
     sender := Some alice; chat := {| chat_id := 9 |} |}.

Definition ignored : Message :=
  {| message_id := 7; date := 1700000120;
     text := Some "ignored"; caption := None; photo := None;
     sender := Some relay; chat := {| chat_id := 9 |} |}.

Definition small : PhotoSize :=
  {| file_id := "AgAD-s"; file_size := Some 1200; width := 90; height := 60 |}.

Definition large : PhotoSize :=
  {| file_id := "AgAD-l"; file_size := Some 98000; width := 1280;
     height := 853 |}.

Definition pic : Message :=
  {| message_id := 8; date := 1700000180;
     text := None; caption := Some "pic"; photo := Some [small; large];
     sender := Some alice; chat := {| chat_id := 9 |} |}.

(** The same photo with its variants listed largest first. *)
Definition pic_reversed : Message :=
  {| message_id := 8; date := 1700000180;
     text := None; caption := Some "pic"; photo := Some [large; small];
     sender := Some alice; chat := {| chat_id := 9 |} |}.

Definition u50 : Update := {| update_id := 50; message := Some hello |}.
Definition u101 : Update := {| update_id := 101; message := Some hello |}.
Definition u102 : Update := {| update_id := 102; message := Some ignored |}.
Definition u103 : Update := {| update_id := 103; message := Some pic |}.
Definition u104 : Update := {| update_id := 104; message := Some again |}.

(** Telegram holds [us] and returns those at or above the offset. *)
Definition holding (us : list Update) (offset : Z) : list Update :=
  filter (fun u => offset <= update_id u) us.

(** A remote side where every request goes through. *)
Definition reliable (us : list Update) : remote :=
  {| tg_updates := holding us;
     tg_files := fun fid => Some ("photos/" +:+ fid);
     tg_blobs := fun _ => "JFIF";
     fate := fun _ _ => Served;
     environ := true |}.

(** A remote side where [broken] requests are answered with status
    [code], all others going through. *)
Definition failing (us : list Update) (broken : nat -> request -> bool)
    (code : Z) : remote :=
  {| tg_updates := holding us;
     tg_files := fun fid => Some ("photos/" +:+ fid);
     tg_blobs := fun _ => "JFIF";
     fate := fun n rq => if broken n rq then Status code else Served;
     environ := true |}.

Definition writes_to (path : string) (n : nat) (rq : request) : bool :=
  is_put rq && bool_decide (path_of rq = Some path).

Definition downloads (n : nat) (rq : request) : bool :=
  match rq with
  | Download _ => true
  | _ => false
  end.

Definition first_request (n : nat) (rq : request) : bool :=
  bool_decide (n = 0%nat).

(** An empty repository, at clock reading [t]. *)
Definition fresh_at (t : Z) : state :=
  {| files := ∅; commits := 0; sent := 0; clock := t; trace := [] |}.

Definition fresh : state := fresh_at 1000.

(** A repository whose checkpoint file holds [v]. *)
Definition at_checkpoint (v : Z) : state :=
  {| files :=
       {[ checkpoint_path :=
            {| content := Dumps (JCheckpoint {| last_update_id := v;
                                                updated_at := 900 |});
               sha := 0 |} ]};
     commits := 1; sent := 0; clock := 1000; trace := [] |}.


End Sample.

(** * Proofs *)

(** ** Exceptions *)

Lemma no_exit_ret {A} (a : A) : no_exit (ret a).
Proof. intros r s c. discriminate. Qed.

Lemma no_exit_raise {A} (e : exn) :
  (forall c, e <> SystemExit c) -> no_exit (@raise A e).
Proof. intros He r s c. simpl. intros [= ->]. by eapply He. Qed.

Lemma no_exit_bind {A B} (m : M A) (k : A -> M B) :
  no_exit m -> (forall a, no_exit (k a)) -> no_exit (bind m k).
Proof.
  intros Hm Hk r s c. unfold bind.
  specialize (Hm r s c). destruct (m r s) as [s' [a|e]]; simpl in *.
  - apply Hk.
  - intros [= ->]. by apply Hm.
Qed.

Lemma no_exit_try {A} (m : M A) (h : exn -> M A) :
  no_exit m -> (forall e, is_exception e -> no_exit (h e)) ->
  no_exit (try_except m h).
Proof.
  intros Hm Hh r s c. unfold try_except.
  specialize (Hm r s). destruct (m r s) as [s' [a|e]]; simpl in *.
  - done.
  - destruct e; try (by apply Hh). by specialize (Hm code).
Qed.

Lemma no_exit_print l : no_exit (print l).
Proof. intros r s c. discriminate. Qed.

Lemma no_exit_utcnow : no_exit utcnow.
Proof. intros r s c. discriminate. Qed.

Lemma no_exit_getenv : no_exit getenv.
Proof. intros r s c. discriminate. Qed.

Lemma no_exit_urlopen rq : no_exit (urlopen rq).
Proof.
  intros r s c. unfold urlopen, serve.
  repeat case_match; simpl; discriminate.
Qed.

Lemma never_raises_ret {A} (a : A) : never_raises (ret a).
Proof. intros r s. by exists a. Qed.

Lemma never_raises_print l : never_raises (print l).
Proof. intros r s. by exists tt. Qed.

Lemma never_raises_bind {A B} (m : M A) (k : A -> M B) :
  never_raises m -> (forall a, never_raises (k a)) -> never_raises (bind m k).
Proof.
  intros Hm Hk r s. unfold bind.
  destruct (Hm r s) as [a Ha]. destruct (m r s) as [s' x]; simpl in *.
  subst x. apply Hk.
Qed.

Lemma never_raises_try {A} (m : M A) (h : exn -> M A) :
  no_exit m -> (forall e, is_exception e -> never_raises (h e)) ->
  never_raises (try_except m h).
Proof.
  intros Hm Hh r s. unfold try_except.
  specialize (Hm r s). destruct (m r s) as [s' [a|e]]; simpl in *.
  - by exists a.
  - destruct e; try (by apply Hh). by specialize (Hm code).
Qed.

Create HintDb py discriminated.
#[export] Hint Resolve no_exit_ret no_exit_bind no_exit_try no_exit_print
  no_exit_utcnow no_exit_getenv no_exit_urlopen never_raises_ret
  never_raises_print never_raises_bind never_raises_try : py.

Lemma no_exit_lift {A} (x : result A) :
  (forall c, x <> Raise (SystemExit c)) -> no_exit (lift x).
Proof. intros H r s c. apply H. Qed.

Lemma no_exit_select_photo message c :
  select_photo message <> Raise (SystemExit c).
Proof. unfold select_photo. repeat case_match; discriminate. Qed.

Lemma no_exit_json_loads t : no_exit (json_loads t).
Proof. intros r s c. destruct t; discriminate. Qed.

Ltac py_cases :=
  repeat first
    [ progress intros
    | match goal with H : is_exception (SystemExit _) |- _ => destruct H end
    | apply no_exit_bind | apply no_exit_try | apply no_exit_ret
    | apply no_exit_print | apply no_exit_utcnow | apply no_exit_getenv
    | apply no_exit_urlopen
    | apply no_exit_json_loads
    | apply no_exit_lift, no_exit_select_photo
    | apply no_exit_raise; discriminate
    | apply never_raises_bind | apply never_raises_ret
    | apply never_raises_print
    | apply never_raises_try
    | case_match ].

Lemma no_exit_make_request rq : no_exit (_make_request rq).
Proof. unfold _make_request. py_cases. Qed.

Lemma no_exit_github_request rq : no_exit (_github_request rq).
Proof. unfold _github_request. py_cases. Qed.

Lemma no_exit_get_file path : no_exit (_github_get_file path).
Proof. unfold _github_get_file. py_cases. Qed.

Lemma never_raises_get_file path : never_raises (_github_get_file path).
Proof.
  unfold _github_get_file. py_cases.
Qed.

Lemma no_exit_create_or_update path body msg :
  no_exit (_github_create_or_update_file path body msg).
Proof.
  unfold _github_create_or_update_file.
  py_cases.
Qed.


Lemma never_raises_save update_id :
  never_raises (_save_last_update_id update_id).
Proof.
  unfold _save_last_update_id. py_cases.
Qed.


Lemma no_exit_fetch_updates self : no_exit (fetch_updates self).
Proof. unfold fetch_updates, _telegram_request. py_cases. Qed.

Lemma no_exit_process_image message id :
  no_exit (_process_image message id).
Proof.
  unfold _process_image, _telegram_request. py_cases;
    try first [ apply no_exit_lift, no_exit_select_photo
          | apply no_exit_make_request | apply no_exit_github_request ].
Qed.

(** [_process_image] has no way out but a return value. *)
Lemma never_raises_process_image message id :
  never_raises (_process_image message id).
Proof.
  unfold _process_image, _telegram_request. py_cases;
    try first [ apply no_exit_lift, no_exit_select_photo
          | apply no_exit_make_request | apply no_exit_github_request ].
Qed.

Lemma no_exit_process_message message : no_exit (process_message message).
Proof.
  unfold process_message. py_cases.
Qed.

Lemma no_exit_add_to_pending_queue md : no_exit (add_to_pending_queue md).
Proof.
  unfold add_to_pending_queue. py_cases;
    try first [ apply no_exit_get_file | apply no_exit_json_loads
          | apply no_exit_create_or_update ].
Qed.

Lemma never_raises_ingest message n : never_raises (ingest message n).
Proof.
  unfold ingest. py_cases;
    try first [apply no_exit_process_message | apply no_exit_add_to_pending_queue].
Qed.


(** ** Relations every step of the script preserves

    A reflexive and transitive relation between states that holds across
    [print], across a reading of the clock and across every request of a
    given class holds across any method that sends only such requests. *)

Section Preserved.
Context (R : relation state) `{!PreOrder R}.
Variable allowed : request -> Prop.
Hypothesis R_log : forall l s, R s (log (Printed l) s).
Hypothesis R_tick : forall s, R s (tick s).
Hypothesis R_urlopen :
  forall rq r s, allowed rq -> R s (fst (urlopen rq r s)).

Lemma preserved_ret {A} (a : A) : preserved R (ret a).
Proof. intros r s. reflexivity. Qed.

Lemma preserved_raise {A} e : preserved R (@raise A e).
Proof. intros r s. reflexivity. Qed.

Lemma preserved_lift {A} (x : result A) : preserved R (lift x).
Proof. intros r s. reflexivity. Qed.

Lemma preserved_getenv : preserved R getenv.
Proof. intros r s. reflexivity. Qed.

Lemma preserved_json_loads t : preserved R (json_loads t).
Proof. intros r s. destruct t; reflexivity. Qed.

Lemma preserved_bind {A B} (m : M A) (k : A -> M B) :
  preserved R m -> (forall a, preserved R (k a)) -> preserved R (bind m k).
Proof.
  intros Hm Hk r s. unfold bind. specialize (Hm r s).
  destruct (m r s) as [s' [a|e]]; simpl in *; [|done].
  etrans; [exact Hm | apply Hk].
Qed.

Lemma preserved_try {A} (m : M A) (h : exn -> M A) :
  preserved R m -> (forall e, preserved R (h e)) -> preserved R (try_except m h).
Proof.
  intros Hm Hh r s. unfold try_except. specialize (Hm r s).
  destruct (m r s) as [s' [a|e]]; simpl in *; [done|].
  destruct e; try done; (etrans; [exact Hm | apply Hh]).
Qed.

Lemma preserved_print l : preserved R (print l).
Proof. intros r s. apply R_log. Qed.

Lemma preserved_utcnow : preserved R utcnow.
Proof. intros r s. apply R_tick. Qed.

Lemma preserved_urlopen rq : allowed rq -> preserved R (urlopen rq).
Proof. intros H r s. by apply R_urlopen. Qed.

Ltac pres :=
  repeat first
    [ progress intros
    | apply preserved_bind | apply preserved_try | apply preserved_ret
    | apply preserved_raise | apply preserved_lift
    | apply preserved_getenv | apply preserved_json_loads
    | apply preserved_print | apply preserved_utcnow
    | apply preserved_urlopen
    | case_match ].

Lemma preserved_github_request rq :
  allowed rq -> preserved R (_github_request rq).
Proof. intros H. unfold _github_request. pres. done. Qed.

Lemma preserved_get_file path :
  allowed (ContentsGET path) -> preserved R (_github_get_file path).
Proof. intros H. unfold _github_get_file. pres. done. Qed.

Lemma preserved_create_or_update path body msg :
  (forall rq, path_of rq = Some path -> allowed rq) ->
  preserved R (_github_create_or_update_file path body msg).
Proof.
  intros H. unfold _github_create_or_update_file. pres; by apply H.
Qed.

Lemma preserved_load :
  allowed (ContentsGET checkpoint_path) -> preserved R _load_last_update_id.
Proof. intros H. unfold _load_last_update_id. pres. done. Qed.

Lemma preserved_save update_id :
  (forall rq, path_of rq = Some checkpoint_path -> allowed rq) ->
  preserved R (_save_last_update_id update_id).
Proof. intros H. unfold _save_last_update_id. pres; by apply H. Qed.


Lemma preserved_fetch_updates self :
  (forall offset, allowed (GetUpdates offset)) ->
  preserved R (fetch_updates self).
Proof.
  intros H. unfold fetch_updates, _telegram_request, _make_request.
  pres. apply H.
Qed.

Lemma preserved_process_image message id :
  (forall rq, image_request rq -> allowed rq) ->
  preserved R (_process_image message id).
Proof.
  intros H. unfold _process_image, _telegram_request, _make_request.
  pres; apply H; simpl; eauto.
Qed.

Lemma preserved_process_message message :
  (forall rq, image_request rq -> allowed rq) ->
  preserved R (process_message message).
Proof.
  intros H. unfold process_message. pres; apply H; simpl; eauto.
Qed.


Lemma preserved_ingest message n :
  (forall rq, image_request rq -> allowed rq) ->
  (forall rq, path_of rq = Some pending_path -> allowed rq) ->
  preserved R (ingest message n).
Proof.
  intros Hi Hp. unfold ingest.
  pres; first [by apply Hp | apply Hi; simpl; eauto].
Qed.

Lemma preserved_for_updates us n last :
  (forall rq, image_request rq -> allowed rq) ->
  (forall rq, path_of rq = Some pending_path -> allowed rq) ->
  preserved R (for_updates us n last).
Proof.
  intros Hi Hp. revert n last.
  induction us as [|u us IH]; intros n last; simpl.
  - apply preserved_ret.
  - repeat case_match; try apply IH.
    apply preserved_bind; [by apply preserved_ingest | intros; apply IH].
Qed.

End Preserved.

(** *** Three such relations *)

#[export] Instance keeps_preorder p : PreOrder (keeps p).
Proof.
  split.
  - by intros s.
  - intros s1 s2 s3 H12 H23. unfold keeps in *. congruence.
Qed.

#[export] Instance reads_only_preorder : PreOrder reads_only.
Proof.
  split.
  - by intros s.
  - intros s1 s2 s3 [H1 H2] [H3 H4]. split; congruence.
Qed.

Lemma puts_on_app p t1 t2 : puts_on p (t1 ++ t2) = puts_on p t1 ++ puts_on p t2.
Proof. unfold puts_on, requests. by rewrite omap_app, filter_app. Qed.

#[export] Instance quiet_on_preorder p : PreOrder (quiet_on p).
Proof.
  split.
  - intros s. exists []. by rewrite app_nil_r.
  - intros s1 s2 s3 (t1 & E1 & Q1) (t2 & E2 & Q2). exists (t1 ++ t2).
    split; [by rewrite E2, E1, app_assoc|].
    by rewrite puts_on_app, Q1, Q2.
Qed.

Lemma urlopen_files rq r s :
  files (fst (urlopen rq r s)) = files s
  \/ exists body tag msg p,
       rq = ContentsPUT p body tag msg
       /\ files (fst (urlopen rq r s)) =
          <[p := {| content := body; sha := commits s |}]> (files s).
Proof.
  unfold urlopen, serve.
  destruct (fate r (sent s) rq); simpl; auto.
  destruct rq; simpl; auto; repeat case_match; simpl; eauto 10.
Qed.

Lemma keeps_urlopen p rq r s :
  off_path p rq -> keeps p s (fst (urlopen rq r s)).
Proof.
  intros H. unfold keeps.
  destruct (urlopen_files rq r s) as [->|(b & t & m & q & -> & ->)]; [done|].
  apply lookup_insert_ne. intros ->. by apply H.
Qed.

Lemma reads_only_urlopen rq r s :
  is_put rq = false -> reads_only s (fst (urlopen rq r s)).
Proof.
  intros H. unfold reads_only, urlopen, serve.
  destruct (fate r (sent s) rq); simpl; auto.
  destruct rq; simpl; auto; try discriminate. by case_match.
Qed.

Lemma urlopen_trace rq r s :
  trace (fst (urlopen rq r s)) = trace s ++ [Sent rq].
Proof.
  unfold urlopen, serve.
  destruct (fate r (sent s) rq); simpl; auto.
  destruct rq; simpl; auto; repeat case_match; simpl; auto.
Qed.

Lemma quiet_on_urlopen p rq r s :
  off_path p rq -> quiet_on p s (fst (urlopen rq r s)).
Proof.
  intros H. exists [Sent rq]. split; [apply urlopen_trace|].
  unfold puts_on. simpl. rewrite filter_cons_False; [done|].
  intros [_ ?]. by apply H.
Qed.

Lemma image_off_path p rq :
  (forall rest, p <> "static/images/" +:+ rest) ->
  image_request rq -> off_path p rq.
Proof.
  intros Hp H. destruct rq; simpl in *; try done.
  destruct H as [rest ->]. intros [= <-]. by eapply Hp.
Qed.

Lemma pending_not_image rest : pending_path <> "static/images/" +:+ rest.
Proof. discriminate. Qed.

Lemma checkpoint_not_image rest : checkpoint_path <> "static/images/" +:+ rest.
Proof. discriminate. Qed.

Lemma pending_not_checkpoint : pending_path <> checkpoint_path.
Proof. discriminate. Qed.

(** The loop of [run] never touches the checkpoint file. *)
Lemma for_updates_keeps_checkpoint us n last r s :
  keeps checkpoint_path s (fst (for_updates us n last r s)).
Proof.
  apply (preserved_for_updates (keeps checkpoint_path)
           (off_path checkpoint_path)); try done.
  - intros; by apply keeps_urlopen.
  - intros rq. apply image_off_path, checkpoint_not_image.
  - intros rq H. unfold off_path. rewrite H. by intros [= ?].
Qed.

(** Saving the checkpoint never touches the queue file. *)
Lemma save_keeps_pending update_id r s :
  keeps pending_path s (fst (_save_last_update_id update_id r s)).
Proof.
  apply (preserved_save (keeps pending_path) (off_path pending_path));
    try done.
  - intros; by apply keeps_urlopen.
  - intros rq H. unfold off_path. rewrite H. by intros [= ?].
Qed.

(** Building a record, attachment included, never touches the queue file
    and attempts no write on it. *)
Lemma process_message_keeps_pending message r s :
  keeps pending_path s (fst (process_message message r s)).
Proof.
  apply (preserved_process_message (keeps pending_path)
           (off_path pending_path)); try done.
  - intros; by apply keeps_urlopen.
  - intros rq. apply image_off_path, pending_not_image.
Qed.

Lemma process_message_quiet message r s :
  quiet_on pending_path s (fst (process_message message r s)).
Proof.
  apply (preserved_process_message (quiet_on pending_path)
           (off_path pending_path)).
  - intros l s0. exists [Printed l]. by split.
  - intros s0. exists []. split; [by rewrite app_nil_r | done].
  - intros; by apply quiet_on_urlopen.
  - intros rq. apply image_off_path, pending_not_image.
Qed.


Lemma fetch_reads_only self r s : reads_only s (fst (fetch_updates self r s)).
Proof.
  apply (preserved_fetch_updates reads_only (fun rq => is_put rq = false));
    try done.
  intros; by apply reads_only_urlopen.
Qed.

(** The trace of a run only grows, so a line once printed stays. *)
#[export] Instance grows_preorder : PreOrder grows.
Proof.
  split.
  - intros s. exists []. by rewrite app_nil_r.
  - intros s1 s2 s3 [t1 E1] [t2 E2]. exists (t1 ++ t2).
    by rewrite E2, E1, app_assoc.
Qed.

Lemma grows_log l s : grows s (log (Printed l) s).
Proof. by exists [Printed l]. Qed.

Lemma grows_tick s : grows s (tick s).
Proof. exists []. by rewrite app_nil_r. Qed.

Lemma grows_urlopen rq r s : grows s (fst (urlopen rq r s)).
Proof. exists [Sent rq]. apply urlopen_trace. Qed.

Lemma grows_elem ev s s' : grows s s' -> ev ∈ trace s -> ev ∈ trace s'.
Proof. intros [t ->] H. apply elem_of_app. by left. Qed.

Lemma for_updates_grows us n last r s :
  grows s (fst (for_updates us n last r s)).
Proof.
  apply (preserved_for_updates grows (fun _ => True)); try done.
  - apply grows_log.
  - apply grows_tick.
  - intros. apply grows_urlopen.
Qed.

Lemma save_grows update_id r s :
  grows s (fst (_save_last_update_id update_id r s)).
Proof.
  apply (preserved_save grows (fun _ => True)); try done.
  - apply grows_log.
  - apply grows_tick.
  - intros. apply grows_urlopen.
Qed.

Lemma save_quiet update_id r s :
  quiet_on pending_path s (fst (_save_last_update_id update_id r s)).
Proof.
  apply (preserved_save (quiet_on pending_path) (off_path pending_path)).
  - intros l s0. exists [Printed l]. by split.
  - intros s0. exists []. split; [by rewrite app_nil_r | done].
  - intros; by apply quiet_on_urlopen.
  - intros rq H. unfold off_path. rewrite H. by intros [= ?].
Qed.

(** ** The store helpers when GitHub answers *)

Lemma get_file_served path r s :
  fate r (sent s) (ContentsGET path) = Served ->
  _github_get_file path r s =
    (count_request (ContentsGET path) s, Ok (content <$> files s !! path)).
Proof.
  intros H.
  unfold _github_get_file, _github_request, try_except, bind, urlopen, serve.
  rewrite H. simpl. by destruct (files s !! path).
Qed.

(** One read for the tag, then one write conditioned on it. *)
Lemma create_or_update_served path body msg r s :
  serves r path ->
  _github_create_or_update_file path body msg r s =
    (commit path body
       (count_request (ContentsPUT path body (sha <$> files s !! path) msg)
          (count_request (ContentsGET path) s)),
     Ok tt).
Proof.
  intros H.
  unfold _github_create_or_update_file, _github_request, try_except, bind,
    urlopen, serve.
  rewrite (H _ (ContentsGET path)) by done. simpl.
  destruct (files s !! path) as [f|] eqn:E; simpl.
  - rewrite (H _ (ContentsPUT _ _ _ _)) by done. simpl. rewrite E.
    by rewrite decide_True.
  - rewrite (H _ (ContentsPUT _ _ _ _)) by done. simpl. by rewrite E.
Qed.

Lemma stored_checkpoint_commit v t s :
  stored_checkpoint
    (commit checkpoint_path
       (Dumps (JCheckpoint {| last_update_id := v; updated_at := t |})) s) = v.
Proof. unfold stored_checkpoint, commit. simpl. by rewrite lookup_insert_eq. Qed.

(** When GitHub answers on the checkpoint path, saving stores the value. *)
Lemma save_served update_id r s :
  serves r checkpoint_path ->
  snd (_save_last_update_id update_id r s) = Ok tt
  /\ stored_checkpoint (fst (_save_last_update_id update_id r s)) = update_id.
Proof.
  intros H. unfold _save_last_update_id, try_except, bind, utcnow.
  rewrite create_or_update_served by done. simpl.
  split; [done | apply stored_checkpoint_commit].
Qed.


(** ** The queue merge when GitHub answers *)

Lemma queue_commit d s :
  queue (commit pending_path (Dumps (JPending d)) s) = messages d.
Proof. unfold queue, commit. simpl. by rewrite lookup_insert_eq. Qed.

Lemma pending_usable_commit d s :
  pending_usable (commit pending_path (Dumps (JPending d)) s).
Proof.
  intros f c. unfold commit. simpl. rewrite lookup_insert_eq.
  by intros [= <-].
Qed.

Lemma pending_usable_keeps s s' :
  keeps pending_path s s' -> pending_usable s -> pending_usable s'.
Proof. intros K H f c. rewrite K. apply H. Qed.

Lemma queue_keeps s s' : keeps pending_path s s' -> queue s' = queue s.
Proof. intros K. unfold queue. by rewrite K. Qed.

Lemma stored_checkpoint_keeps s s' :
  keeps checkpoint_path s s' -> stored_checkpoint s' = stored_checkpoint s.
Proof. intros K. unfold stored_checkpoint. by rewrite K. Qed.

Lemma add_to_pending_queue_served md r s :
  serves r pending_path -> pending_usable s ->
  exists s', add_to_pending_queue md r s = (s', Ok tt)
    /\ queue s' = queue s ++ [md]
    /\ pending_usable s'.
Proof.
  intros H U. unfold add_to_pending_queue, bind at 1.
  rewrite get_file_served by (by apply H).
  unfold queue. specialize (U) as U'. unfold pending_usable in U'.
  destruct (files s !! pending_path) as [[[[c|d]|b] tag]|] eqn:E; simpl.
  - by destruct (U' _ c eq_refl).
  - unfold bind, try_except, utcnow, print. simpl.
    rewrite create_or_update_served by done. simpl.
    eexists. split; [reflexivity|]. simpl.
    rewrite lookup_insert_eq. simpl. split; [done|].
    apply (pending_usable_commit (Build_pending_data _ _ _)).
  - destruct (negb (String.eqb b "")); simpl;
      unfold bind, try_except, utcnow, print; simpl;
      rewrite create_or_update_served by done; simpl;
      (eexists; split; [reflexivity|]); simpl;
      rewrite lookup_insert_eq; simpl; (split; [done|]);
      apply (pending_usable_commit (Build_pending_data _ _ _)).
  - unfold bind, try_except, utcnow, print. simpl.
    rewrite create_or_update_served by done. simpl.
    eexists. split; [reflexivity|]. simpl.
    rewrite lookup_insert_eq. simpl. split; [done|].
    apply (pending_usable_commit (Build_pending_data _ _ _)).
Qed.

(** ** The requests of the queue merge, whatever their fate *)

Lemma requests_app t1 t2 : requests (t1 ++ t2) = requests t1 ++ requests t2.
Proof. apply omap_app. Qed.

Lemma sends_nil s s' : trace s' = trace s -> sends [] s s'.
Proof. intros E. unfold sends. by rewrite E, app_nil_r. Qed.

Lemma sends_trans l1 l2 s1 s2 s3 :
  sends l1 s1 s2 -> sends l2 s2 s3 -> sends (l1 ++ l2) s1 s3.
Proof. unfold sends. intros E1 E2. by rewrite E2, E1, app_assoc. Qed.

Lemma sends_log l ls s s' :
  sends ls s s' -> sends ls s (log (Printed l) s').
Proof.
  unfold sends. intros E. simpl. rewrite requests_app, E. simpl.
  by rewrite app_nil_r.
Qed.

Lemma get_file_cases path r s :
  exists s' o, _github_get_file path r s = (s', Ok o)
    /\ files s' = files s /\ commits s' = commits s
    /\ sent s' = S (sent s) /\ clock s' = clock s
    /\ sends [ContentsGET path] s s'
    /\ (o = None \/ o = content <$> files s !! path).
Proof.
  unfold _github_get_file, _github_request, try_except, bind, urlopen, serve,
    ret, raise, print, sends.
  destruct (fate r (sent s) (ContentsGET path)) as [|code|]; simpl.
  - destruct (files s !! path); simpl; eexists _, _;
      (split; [reflexivity|]); simpl; rewrite ?requests_app; simpl;
      auto 10.
  - destruct (decide (code = 404)); simpl; eexists _, _;
      (split; [reflexivity|]); simpl; rewrite ?requests_app; simpl;
      rewrite ?app_nil_r; auto 10.
  - eexists _, _; (split; [reflexivity|]); simpl; rewrite ?requests_app;
      simpl; rewrite ?app_nil_r; auto 10.
Qed.

(** [_github_create_or_update_file] reads the tag once and attempts the
    write once; a write answered with an error status other than 404 is
    not attempted again: the error is raised and no file has changed. *)
Lemma create_or_update_cases path body msg r s :
  let out := _github_create_or_update_file path body msg r s in
  (exists tag,
     sends [ContentsGET path; ContentsPUT path body tag msg] s (fst out))
  /\ (forall code, code <> 404 ->
        (forall tag,
           fate r (S (sent s)) (ContentsPUT path body tag msg) = Status code) ->
        snd out = Raise (HTTPError code) /\ files (fst out) = files s).
Proof.
  unfold _github_create_or_update_file, _github_request, try_except, bind,
    urlopen, serve, ret, raise, print, sends.
  destruct (fate r (sent s) (ContentsGET path)) as [|c1|]; simpl;
    try destruct (decide (c1 = 404)); simpl;
    destruct (files s !! path) as [f|] eqn:E; simpl;
    match goal with
    | |- context [fate r (S (sent s)) ?rq] =>
        destruct (fate r (S (sent s)) rq) as [|c2|] eqn:F
    end; simpl; rewrite ?E; simpl;
    rewrite ?decide_True by done; simpl;
    try destruct (decide (c2 = 404)); simpl;
    (split;
       [eexists; rewrite !requests_app, <- ?app_assoc; simpl;
        rewrite ?app_nil_r, <- ?app_assoc; reflexivity
       |intros code Hc H; rewrite H in F; by simplify_eq]).
Qed.

(** [add_to_pending_queue] sends three requests whatever their fate: the
    read of the document, the read of its tag, one conditioned write.  A
    refused write is not attempted again. *)
Lemma add_to_pending_queue_once md r s :
  pending_usable s ->
  let out := add_to_pending_queue md r s in
  (exists body tag,
     sends [ContentsGET pending_path; ContentsGET pending_path;
            ContentsPUT pending_path body tag
              ("Add pending message " +:+ md_id md)] s (fst out))
  /\ (forall code, code <> 404 ->
        (forall body tag,
           fate r (S (S (sent s)))
             (ContentsPUT pending_path body tag
                ("Add pending message " +:+ md_id md)) = Status code) ->
        snd out = Raise (HTTPError code) /\ files (fst out) = files s).
Proof.
  intros U.
  destruct (get_file_cases pending_path r s)
    as (s1 & o & E & Hf & Hc & Hs & Hk & Hsend & Ho).
  assert (Hnc : forall c, o <> Some (Dumps (JCheckpoint c))).
  { intros c ->. destruct Ho as [?|Ho]; [done|].
    destruct (files s !! pending_path) as [f|] eqn:Ef; [|done].
    simpl in Ho. injection Ho as Ho. by eapply U. }
  assert (Hgen : forall (sk : state) d,
    trace sk = trace s1 \/ (exists l, trace sk = trace s1 ++ [Printed l]) ->
    files sk = files s -> sent sk = sent s1 ->
    let out := (let* now := utcnow in
                _github_create_or_update_file pending_path
                  (Dumps (JPending {| messages := messages d ++ [md];
                                      lastUpdated := now;
                                      version := version d |}))
                  ("Add pending message " +:+ md_id md);;
                print (AddedToQueue (md_id md)))%py r sk in
    (exists body tag,
       sends [ContentsGET pending_path; ContentsGET pending_path;
              ContentsPUT pending_path body tag
                ("Add pending message " +:+ md_id md)] s (fst out))
    /\ (forall code, code <> 404 ->
          (forall body tag,
             fate r (S (S (sent s)))
               (ContentsPUT pending_path body tag
                  ("Add pending message " +:+ md_id md)) = Status code) ->
          snd out = Raise (HTTPError code) /\ files (fst out) = files s)).
  { intros sk d Ht Hfk Hsk. cbv zeta. unfold bind, utcnow, print.
    match goal with
    | |- context [_github_create_or_update_file ?p ?b ?m r ?s0] =>
        destruct (create_or_update_cases p b m r s0) as [(tag & Hs2) Hr];
        destruct (_github_create_or_update_file p b m r s0) as [s2 x] eqn:Ec
    end.
    simpl in Hs2, Hr.
    assert (Hsk' : sends [ContentsGET pending_path] s (tick sk)).
    { unfold sends. simpl.
      destruct Ht as [Ht|[l Ht]]; rewrite Ht; [exact Hsend|].
      rewrite requests_app, Hsend. simpl. by rewrite app_nil_r. }
    pose proof (sends_trans _ _ _ _ _ Hsk' Hs2) as Hall. simpl in Hall.
    split.
    - destruct x as [[]|e]; simpl; eexists _, _; [by apply sends_log|done].
    - intros code Hne Hfate.
      destruct (Hr code Hne) as [-> Hfs].
      { intros tag'. rewrite Hsk, Hs. apply Hfate. }
      simpl. split; [done|]. by rewrite Hfs. }
  intros out.
  assert (Eo : out = add_to_pending_queue md r s) by reflexivity.
  clearbody out. unfold add_to_pending_queue in Eo.
  unfold bind at 1 in Eo. rewrite E in Eo.
  destruct o as [[[c|d]|b]|].
  - by destruct (Hnc c).
  - subst out. apply (Hgen s1 d); auto.
  - destruct (negb (String.eqb b "")) eqn:Hb.
    + subst out. unfold truthy_text. rewrite Hb.
      apply (Hgen (tick (log (Printed ErrorParsingPending) s1))
               (Build_pending_data [] (clock s1) "1.0")); simpl; eauto.
    + subst out. unfold truthy_text. rewrite Hb.
      apply (Hgen (tick s1) (Build_pending_data [] (clock s1) "1.0")); simpl; eauto.
  - subst out.
    apply (Hgen (tick s1) (Build_pending_data [] (clock s1) "1.0")); simpl; eauto.
Qed.

(** ** Building a record *)

Lemma process_message_result message r s :
  match sender message with
  | None => snd (process_message message r s) = Raise (KeyError "from")
  | Some u =>
      exists imgs,
        snd (process_message message r s) =
          Ok (record_of message u (clock s) imgs)
        /\ (truthy_photo (photo message) = false -> imgs = [])
        /\ (snd (_process_image message (derived_id message) r (tick s))
              = Ok None -> imgs = [])
  end.
Proof.
  unfold process_message, bind, utcnow.
  destruct (sender message) as [u|]; simpl; [|done].
  destruct (truthy_photo (photo message)); simpl.
  - destruct (never_raises_process_image message (derived_id message)
                r (tick s)) as [o Ho].
    destruct (_process_image message (derived_id message) r (tick s))
      as [s' x]. simpl in Ho. subst x.
    destruct o as [i|]; simpl.
    + exists [i]. by repeat split.
    + exists []. by repeat split.
  - exists []. by repeat split.
Qed.

Lemma process_image_fails message id r s :
  attachment_fails r (sent s) message ->
  snd (_process_image message id r s) = Ok None.
Proof.
  intros H. unfold _process_image, try_except, bind at 1, lift.
  destruct (select_photo message) as [p|e] eqn:Ep.
  - specialize (H p Ep).
    unfold bind at 1, _telegram_request, _make_request, try_except, urlopen.
    destruct (fate r (sent s) (GetFile (file_id p))) as [|c|] eqn:F; simpl.
    + destruct (tg_files r (file_id p)) as [path|] eqn:T; simpl; [|done].
      destruct H as [H|H]; [done|].
      unfold bind at 1, urlopen. simpl.
      destruct (fate r (S (sent s)) (Download path)); by simpl.
    + done.
    + done.
  - unfold select_photo in Ep. repeat case_match; by simplify_eq.
Qed.

Lemma sends_puts p l s s' :
  sends l s s' ->
  puts_on p (trace s') =
  puts_on p (trace s)
    ++ filter (fun rq => is_put rq = true /\ path_of rq = Some p) l.
Proof. unfold sends, puts_on. intros ->. by rewrite filter_app. Qed.

Lemma quiet_puts p s s' :
  quiet_on p s s' -> puts_on p (trace s') = puts_on p (trace s).
Proof.
  intros (t & -> & Q). by rewrite puts_on_app, Q, app_nil_r.
Qed.

Lemma puts_on_log p l s :
  puts_on p (trace (log (Printed l) s)) = puts_on p (trace s).
Proof. simpl. by rewrite puts_on_app, app_nil_r. Qed.

(** ** One message, then the whole batch, when GitHub answers on the queue *)

Lemma ingest_keeps_checkpoint message n r s :
  keeps checkpoint_path s (fst (ingest message n r s)).
Proof.
  apply (preserved_ingest (keeps checkpoint_path)
           (off_path checkpoint_path)); try done.
  - intros; by apply keeps_urlopen.
  - intros rq. apply image_off_path, checkpoint_not_image.
  - intros rq H. unfold off_path. rewrite H. by intros [= ?].
Qed.

Lemma ingest_served message n r s :
  serves r pending_path -> pending_usable s ->
  let out := ingest message n r s in
  pending_usable (fst out)
  /\ match sender message with
     | None =>
         snd out = Ok n
         /\ queue (fst out) = queue s
         /\ puts_on pending_path (trace (fst out))
            = puts_on pending_path (trace s)
     | Some u =>
         exists imgs,
           snd out = Ok (S n)
           /\ queue (fst out) = queue s ++ [record_of message u (clock s) imgs]
           /\ (truthy_photo (photo message) = false -> imgs = [])
           /\ (attachment_fails r (sent s) message -> imgs = [])
           /\ length (puts_on pending_path (trace (fst out)))
              = S (length (puts_on pending_path (trace s)))
     end.
Proof.
  intros H U out.
  pose proof (process_message_result message r s) as Hres.
  pose proof (process_message_keeps_pending message r s) as Hkeep.
  pose proof (process_message_quiet message r s) as Hquiet.
  assert (Eo : out = ingest message n r s) by reflexivity. clearbody out.
  unfold ingest, try_except, bind in Eo.
  destruct (process_message message r s) as [s1 x1] eqn:Ep.
  simpl in Hres, Hkeep, Hquiet.
  destruct (sender message) as [u|].
  - destruct Hres as (imgs & -> & Hi1 & Hi2).
    destruct (add_to_pending_queue_served (record_of message u (clock s) imgs)
                r s1) as (s2 & Ea & Hq & U2); [done | by eapply pending_usable_keeps |].
    destruct (add_to_pending_queue_once (record_of message u (clock s) imgs)
                r s1) as [(body & tag & Hs) _]; [by eapply pending_usable_keeps|].
    rewrite Ea in Eo, Hs. simpl in Hs. subst out. simpl.
    split; [done|]. exists imgs. split; [done|].
    split; [by rewrite Hq, (queue_keeps _ _ Hkeep)|].
    split; [done|]. split.
    + intros Hf. apply Hi2. by apply process_image_fails.
    + rewrite (sends_puts _ _ _ _ Hs), (quiet_puts _ _ _ Hquiet).
      rewrite length_app.
      rewrite filter_cons_False by (by intros [? _]).
      rewrite filter_cons_False by (by intros [? _]).
      rewrite filter_cons_True by done. simpl. lia.
  - subst x1 out. simpl. split; [by eapply pending_usable_keeps|].
    split; [done|]. split; [by apply queue_keeps|].
    rewrite puts_on_app, (quiet_puts _ _ _ Hquiet). apply app_nil_r.
Qed.


Lemma for_updates_last_id us n start r s :
  exists c, snd (for_updates us n start r s) = Ok (c, final_id us start).
Proof.
  revert n start s. induction us as [|u us IH]; intros n start s; simpl.
  - by exists n.
  - repeat case_match; try apply IH.
    unfold bind.
    destruct (never_raises_ingest m n r s) as [c Hc].
    destruct (ingest m n r s) as [s1 x]. simpl in Hc. subst x. apply IH.
Qed.

Lemma accepted_cons u us :
  accepted (u :: us) =
  match message u with
  | Some m =>
      if skipped m then accepted us
      else match sender m with
           | Some _ => m :: accepted us
           | None => accepted us
           end
  | None => accepted us
  end.
Proof.
  unfold accepted, kept. simpl.
  destruct (message u) as [m|]; [|done].
  destruct (skipped m) eqn:Hs.
  - by rewrite filter_cons_False by (by rewrite Hs).
  - rewrite filter_cons_True by done.
    destruct (sender m) eqn:Hu.
    + rewrite filter_cons_True; [done|]. by rewrite Hu.
    + rewrite filter_cons_False; [done|]. rewrite Hu. by intros [? ?].
Qed.

Lemma for_updates_served us n start r s :
  serves r pending_path -> pending_usable s ->
  let out := for_updates us n start r s in
  exists recs,
    snd out = Ok ((n + length (accepted us))%nat, final_id us start)
    /\ queue (fst out) = queue s ++ recs
    /\ Forall2 (built_from r) recs (accepted us)
    /\ length (puts_on pending_path (trace (fst out)))
       = (length (puts_on pending_path (trace s)) + length (accepted us))%nat
    /\ pending_usable (fst out).
Proof.
  intros H. revert n start s.
  induction us as [|u us IH]; intros n start s U; simpl.
  - exists []. rewrite app_nil_r, !Nat.add_0_r. by repeat split.
  - rewrite accepted_cons. unfold skipped.
    destruct (message u) as [m|]; [|by apply IH].
    destruct (from_bot m); [by apply IH|].
    destruct (no_content m); [by apply IH|]. simpl.
    unfold bind.
    destruct (ingest_served m n r s H U) as [U1 Hm].
    destruct (ingest m n r s) as [s1 x]. simpl in U1, Hm.
    destruct (sender m) as [usr|] eqn:Hu.
    + destruct Hm as (imgs & -> & Hq & Hi1 & Hi2 & Hp).
      destruct (IH (S n) (update_id u) s1 U1) as (recs & E1 & E2 & E3 & E4 & E5).
      exists (record_of m usr (clock s) imgs :: recs).
      split; [rewrite E1; simpl; f_equal; f_equal; lia|].
      split; [by rewrite E2, Hq, <- app_assoc|].
      split; [constructor; [exists usr, (clock s), imgs; auto 10 | done]|].
      split; [rewrite E4, Hp; simpl; lia | done].
    + destruct Hm as (-> & Hq & Hp).
      destruct (IH n (update_id u) s1 U1) as (recs & E1 & E2 & E3 & E4 & E5).
      exists recs. rewrite <- Hq, <- Hp. by repeat split.
Qed.

(** ** A whole run *)

Lemma fetch_served self r s :
  fate r (sent s) (GetUpdates (self_last_update_id self + 1)) = Served ->
  fetch_updates self r (log (Printed Starting) s) =
    (fetched self s, Ok (tg_updates r (self_last_update_id self + 1))).
Proof.
  intros H.
  unfold fetch_updates, _telegram_request, _make_request, try_except, bind,
    print, urlopen, serve. simpl. by rewrite H.
Qed.

Lemma run_empty self r s :
  fate r (sent s) (GetUpdates (self_last_update_id self + 1)) = Served ->
  tg_updates r (self_last_update_id self + 1) = [] ->
  run self r s = (log (Printed NoNewUpdates) (fetched self s), Ok tt).
Proof.
  intros H E. unfold run, try_except, bind at 1, print at 1.
  unfold bind at 1. rewrite fetch_served by done. by rewrite E.
Qed.

Lemma run_nonempty self r s us :
  fate r (sent s) (GetUpdates (self_last_update_id self + 1)) = Served ->
  tg_updates r (self_last_update_id self + 1) = us -> us <> [] ->
  let loop := for_updates us 0%nat (self_last_update_id self) r
                (loop_start self us s) in
  let last_id := final_id us (self_last_update_id self) in
  exists c,
    snd loop = Ok (c, last_id)
    /\ run self r s =
       (log (Printed (Processed c))
          (if last_id >? self_last_update_id self
           then fst (_save_last_update_id last_id r (fst loop))
           else fst loop),
        Ok tt).
Proof.
  intros H E Hne. cbv zeta.
  destruct (for_updates_last_id us 0%nat (self_last_update_id self) r
              (loop_start self us s)) as [c Hc].
  exists c. split; [done|].
  unfold run, try_except, bind at 1, print at 1.
  unfold bind at 1. rewrite fetch_served by done. rewrite E.
  destruct us as [|u us']; [done|].
  unfold bind at 1, print at 1. unfold bind at 1.
  fold (loop_start self (u :: us') s).
  destruct (for_updates (u :: us') 0%nat (self_last_update_id self) r
              (loop_start self (u :: us') s)) as [s3 x].
  simpl in Hc. subst x. cbn [fst snd]. unfold bind.
  change (final_id (u :: us') (self_last_update_id self))
    with (final_id us' (update_id u)).
  destruct (final_id us' (update_id u) >? self_last_update_id self).
  - destruct (never_raises_save (final_id us' (update_id u)) r s3)
      as [[] Hs].
    destruct (_save_last_update_id (final_id us' (update_id u)) r s3)
      as [s4 y]. simpl in Hs. by subst y.
  - done.
Qed.

(** What [__init__] does: one read of the checkpoint file, no write; it
    loads the stored value when the read is answered, 0 otherwise. *)
Lemma init_cases r s :
  environ r = true ->
  exists s' v,
    __init__ r s = (s', Ok {| self_last_update_id := v |})
    /\ reads_only s s'
    /\ sends [ContentsGET checkpoint_path] s s'
    /\ (v = 0 \/ v = stored_checkpoint s)
    /\ (fate r (sent s) (ContentsGET checkpoint_path) = Served ->
        v = stored_checkpoint s).
Proof.
  intros He.
  destruct (get_file_cases checkpoint_path r s)
    as (s1 & o & E & Hf & Hc & Hs & Hk & Hsend & Ho).
  assert (Hserved : fate r (sent s) (ContentsGET checkpoint_path) = Served ->
                    o = content <$> files s !! checkpoint_path).
  { intros F. rewrite get_file_served in E by done. by simplify_eq. }
  unfold __init__, _load_last_update_id, try_except, bind, getenv.
  rewrite He, E. unfold stored_checkpoint, reads_only.
  destruct o as [[[c|d]|b]|]; simpl.
  - eexists _, _. split; [reflexivity|]. simpl. repeat split; try done.
    + destruct Ho as [?|Ho]; [done|]. right.
      destruct (files s !! checkpoint_path) as [[]|]; by simplify_eq/=.
    + intros F. specialize (Hserved F).
      destruct (files s !! checkpoint_path) as [[]|]; by simplify_eq/=.
  - eexists _, _. split; [reflexivity|]. simpl. repeat split; auto.
    intros F. specialize (Hserved F).
    destruct (files s !! checkpoint_path) as [[]|]; by simplify_eq/=.
  - destruct (negb (String.eqb b "")); simpl;
      (eexists _, _; split; [reflexivity|]); simpl; repeat split; auto;
      try (by apply sends_log);
      intros F; specialize (Hserved F);
      destruct (files s !! checkpoint_path) as [[]|]; by simplify_eq/=.
  - eexists _, _. split; [reflexivity|]. simpl. repeat split; auto.
    intros F. specialize (Hserved F).
    destruct (files s !! checkpoint_path) as [[]|]; by simplify_eq/=.
Qed.

Lemma init_unset r s :
  environ r = false -> __init__ r s = (s, Raise ValueError).
Proof. intros He. unfold __init__, bind, getenv. by rewrite He. Qed.

(** A call of [_github_create_or_update_file] either changes no file, or
    returns normally having committed [body] at [path]. *)
Lemma create_or_update_files path body msg r s :
  let out := _github_create_or_update_file path body msg r s in
  (files (fst out) = files s /\ commits (fst out) = commits s)
  \/ (snd out = Ok tt
      /\ files (fst out) =
         <[path := {| content := body; sha := commits s |}]> (files s)).
Proof.
  unfold _github_create_or_update_file, _github_request, try_except, bind,
    urlopen, serve, ret, raise, print.
  destruct (fate r (sent s) (ContentsGET path)) as [|c1|]; simpl;
    try destruct (decide (c1 = 404)); simpl;
    destruct (files s !! path) as [f|] eqn:E; simpl;
    match goal with
    | |- context [fate r (S (sent s)) ?rq] =>
        destruct (fate r (S (sent s)) rq) as [|c2|] eqn:F
    end; simpl; rewrite ?E; simpl;
    rewrite ?decide_True by done; simpl;
    try destruct (decide (c2 = 404)); simpl; auto.
Qed.

Lemma save_swallows update_id r s e :
  snd (_github_create_or_update_file checkpoint_path
         (Dumps (JCheckpoint {| last_update_id := update_id;
                                updated_at := clock s |}))
         ("Update last processed update ID to " +:+ pretty update_id)
         r (tick s)) = Raise e ->
  snd (_save_last_update_id update_id r s) = Ok tt
  /\ files (fst (_save_last_update_id update_id r s)) = files s
  /\ Printed (ErrorSaving e) ∈ trace (fst (_save_last_update_id update_id r s)).
Proof.
  intros H. unfold _save_last_update_id, try_except, bind, utcnow, print.
  pose proof (no_exit_create_or_update checkpoint_path
    (Dumps (JCheckpoint {| last_update_id := update_id;
                           updated_at := clock s |}))
    ("Update last processed update ID to " +:+ pretty update_id)
    r (tick s)) as Hne.
  destruct (create_or_update_files checkpoint_path
    (Dumps (JCheckpoint {| last_update_id := update_id;
                           updated_at := clock s |}))
    ("Update last processed update ID to " +:+ pretty update_id)
    r (tick s)) as [[Hf _]|[Hok _]].
  2: { rewrite H in Hok. done. }
  destruct (_github_create_or_update_file _ _ _ r (tick s)) as [s' x].
  simpl in *. subst x.
  destruct e; simpl; try (split; [done|]; split; [done|];
    apply elem_of_app; right; apply list_elem_of_singleton; done).
  by destruct (Hne code).
Qed.


Lemma files_log ev s : files (log ev s) = files s.
Proof. done. Qed.

Lemma queue_log ev s : queue (log ev s) = queue s.
Proof. done. Qed.

Lemma stored_checkpoint_log ev s :
  stored_checkpoint (log ev s) = stored_checkpoint s.
Proof. done. Qed.

Lemma queue_files s s' : files s' = files s -> queue s' = queue s.
Proof. intros E. unfold queue. by rewrite E. Qed.

Lemma stored_checkpoint_files s s' :
  files s' = files s -> stored_checkpoint s' = stored_checkpoint s.
Proof. intros E. unfold stored_checkpoint. by rewrite E. Qed.

(** * The claims about one run *)

(** C8.  When the fetched batch is empty, the run returns normally and
    writes nothing: the repository is exactly as it was before the
    process started, and the only requests sent are the read of the
    checkpoint and [getUpdates]. *)
Theorem empty_batch_writes_nothing r s s1 self :
  __init__ r s = (s1, Ok self) ->
  fate r (sent s1) (GetUpdates (self_last_update_id self + 1)) = Served ->
  tg_updates r (self_last_update_id self + 1) = [] ->
  let out := run self r s1 in
  main r s = out
  /\ snd out = Ok tt
  /\ exit_status (snd out) = 0
  /\ files (fst out) = files s
  /\ commits (fst out) = commits s
  /\ requests (trace (fst out)) =
     requests (trace s)
       ++ [ContentsGET checkpoint_path;
           GetUpdates (self_last_update_id self + 1)]
  /\ trace (fst out) =
     trace s1
       ++ [Printed Starting;
           Printed (FetchingFrom (self_last_update_id self + 1));
           Sent (GetUpdates (self_last_update_id self + 1));
           Printed NoNewUpdates].
Proof.
  intros Hi F E. cbv zeta.
  assert (Hm : main r s = run self r s1).
  { unfold main, bind. by rewrite Hi. }
  destruct (environ r) eqn:He.
  2: { rewrite (init_unset r s He) in Hi. discriminate. }
  destruct (init_cases r s He) as (s' & v & Hi' & [Hf Hc] & Hs & _).
  rewrite Hi in Hi'. simplify_eq.
  rewrite run_empty by done. simpl.
  repeat split; try done.
  - by rewrite Hm, run_empty.
  - rewrite !requests_app, Hs. simpl. by rewrite !app_nil_r, <- app_assoc.
  - by rewrite <- !app_assoc.
Qed.

Lemma empty_batch_writes_nothing_witness :
  let r := Sample.reliable [] in
  let s := Sample.at_checkpoint 100 in
  let out := main r s in
  snd out = Ok tt /\ files (fst out) = files s.
Proof.
  intros r s.
  destruct (empty_batch_writes_nothing r s
              (fst (__init__ r s)) {| self_last_update_id := 100 |})
    as (Hm & Hok & _ & Hf & _).
  - vm_compute. reflexivity.
  - reflexivity.
  - reflexivity.
  - cbv zeta. rewrite Hm. split; [exact Hok | exact Hf].
Defined.

(** C10.  If the write of the checkpoint at the end of a run raises, the
    error is printed and swallowed: the run returns normally (exit status
    zero), no file has changed since the end of the loop, so that the
    records merged into the queue are still there, and the stored
    checkpoint is the one the run started with. *)
Theorem failed_checkpoint_save_is_swallowed self r s us e :
  fate r (sent s) (GetUpdates (self_last_update_id self + 1)) = Served ->
  tg_updates r (self_last_update_id self + 1) = us -> us <> [] ->
  let merged := fst (for_updates us 0%nat (self_last_update_id self) r
                       (loop_start self us s)) in
  let last_id := final_id us (self_last_update_id self) in
  self_last_update_id self < last_id ->
  snd (_github_create_or_update_file checkpoint_path
         (Dumps (JCheckpoint {| last_update_id := last_id;
                                updated_at := clock merged |}))
         ("Update last processed update ID to " +:+ (pretty last_id))
         r (tick merged)) = Raise e ->
  let out := run self r s in
  snd out = Ok tt
  /\ exit_status (snd out) = 0
  /\ (Printed (ErrorSaving e) ∈ trace (fst out))
  /\ files (fst out) = files merged
  /\ queue (fst out) = queue merged
  /\ stored_checkpoint (fst out) = stored_checkpoint s.
Proof.
  intros F E Hne merged last_id Hlt Hraise out.
  destruct (run_nonempty self r s us F E Hne) as (c & Hc & Hrun).
  fold merged last_id in Hrun.
  destruct (save_swallows last_id r merged e Hraise) as (_ & Hf & Hin).
  assert (Hgt : (last_id >? self_last_update_id self) = true) by lia.
  rewrite Hgt in Hrun. subst out. rewrite Hrun. cbn [fst snd].
  assert (Hk : keeps checkpoint_path s merged).
  { etrans; [|apply for_updates_keeps_checkpoint]. done. }
  rewrite files_log, queue_log, stored_checkpoint_log.
  repeat split.
  - apply elem_of_app. by left.
  - done.
  - by apply queue_files.
  - rewrite (stored_checkpoint_files _ _ Hf).
    apply (stored_checkpoint_keeps _ _ Hk).
Qed.

Lemma failed_checkpoint_save_is_swallowed_witness :
  exit_status
    (snd (run {| self_last_update_id := 0 |}
            (Sample.failing [Sample.u101]
               (Sample.writes_to checkpoint_path) 500)
            Sample.fresh)) = 0
  /\ stored_checkpoint
       (fst (run {| self_last_update_id := 0 |}
               (Sample.failing [Sample.u101]
                  (Sample.writes_to checkpoint_path) 500)
               Sample.fresh)) = 0.
Proof.
  destruct (failed_checkpoint_save_is_swallowed
              {| self_last_update_id := 0 |}
              (Sample.failing [Sample.u101]
                 (Sample.writes_to checkpoint_path) 500)
              Sample.fresh [Sample.u101] (HTTPError 500))
    as (_ & Hexit & _ & _ & _ & Hcp).
  - reflexivity.
  - reflexivity.
  - discriminate.
  - vm_compute. reflexivity.
  - vm_compute. reflexivity.
  - split; [exact Hexit | exact Hcp].
Defined.

(** ** When the queue cannot be written *)

(** A message whose queue write is refused: the error is caught and
    printed, the count is not incremented, the queue file is as it was. *)
Lemma ingest_refused message n r s code :
  code <> 404 -> refuses r pending_path code -> pending_usable s ->
  let out := ingest message n r s in
  snd out = Ok n
  /\ keeps pending_path s (fst out)
  /\ match sender message with
     | Some _ =>
         last (trace (fst out))
         = Some (Printed (ErrorProcessingMessage (message_id message)
                            (HTTPError code)))
         /\ length (puts_on pending_path (trace (fst out)))
            = S (length (puts_on pending_path (trace s)))
     | None =>
         puts_on pending_path (trace (fst out))
         = puts_on pending_path (trace s)
     end.
Proof.
  intros Hc Hr U out.
  pose proof (process_message_result message r s) as Hres.
  pose proof (process_message_keeps_pending message r s) as Hkeep.
  pose proof (process_message_quiet message r s) as Hquiet.
  assert (Eo : out = ingest message n r s) by reflexivity. clearbody out.
  unfold ingest, try_except, bind in Eo.
  destruct (process_message message r s) as [s1 x1] eqn:Ep.
  simpl in Hres, Hkeep, Hquiet.
  destruct (sender message) as [u|].
  - destruct Hres as (imgs & -> & _).
    destruct (add_to_pending_queue_once (record_of message u (clock s) imgs)
                r s1) as [(body & tag & Hs) Hraise];
      [by eapply pending_usable_keeps|].
    destruct (Hraise code Hc) as [Hx Hf]; [intros; by apply Hr|].
    destruct (add_to_pending_queue _ r s1) as [s2 x]. simpl in *. subst x out.
    simpl. split; [done|].
    split; [unfold keeps in *; simpl; by rewrite Hf|].
    split; [by rewrite last_snoc|].
    rewrite puts_on_app, app_nil_r.
    rewrite (sends_puts _ _ _ _ Hs), (quiet_puts _ _ _ Hquiet).
    rewrite length_app.
    rewrite filter_cons_False by (by intros [? _]).
    rewrite filter_cons_False by (by intros [? _]).
    rewrite filter_cons_True by done. simpl. lia.
  - subst x1 out. simpl. split; [done|]. split; [done|].
    rewrite puts_on_app, (quiet_puts _ _ _ Hquiet). apply app_nil_r.
Qed.

Lemma for_updates_refused us n start r s code :
  code <> 404 -> refuses r pending_path code -> pending_usable s ->
  let out := for_updates us n start r s in
  snd out = Ok (n, final_id us start)
  /\ keeps pending_path s (fst out)
  /\ (forall m, m ∈ accepted us ->
        Printed (ErrorProcessingMessage (message_id m) (HTTPError code))
          ∈ trace (fst out))
  /\ length (puts_on pending_path (trace (fst out)))
     = (length (puts_on pending_path (trace s)) + length (accepted us))%nat.
Proof.
  intros Hc Hr. revert start s.
  induction us as [|u us IH]; intros start s U; simpl.
  - split; [done|]. split; [done|]. split; [|lia].
    intros m Hm. by apply elem_of_nil in Hm.
  - rewrite accepted_cons. unfold skipped.
    destruct (message u) as [m|]; [|by apply IH].
    destruct (from_bot m); [by apply IH|].
    destruct (no_content m); [by apply IH|]. simpl.
    unfold bind.
    destruct (ingest_refused m n r s code Hc Hr U) as (Hx & Hk & Hm).
    pose proof (for_updates_grows us n (update_id u) r
                  (fst (ingest m n r s))) as Hg.
    destruct (ingest m n r s) as [s1 x]. simpl in Hx, Hk, Hm, Hg. subst x.
    destruct (IH (update_id u) s1) as (Hx' & Hk' & Hl' & Hp');
      [by eapply pending_usable_keeps|].
    split; [done|]. split; [by etrans|].
    destruct (sender m) as [usr|].
    + destruct Hm as [Hlast Hp]. split.
      * intros m' [->|Hm']%elem_of_cons; [|by apply Hl'].
        eapply grows_elem; [exact Hg|].
        apply last_Some in Hlast as [t ->]. apply elem_of_app. right.
        by apply list_elem_of_singleton.
      * rewrite Hp', Hp. simpl. lia.
    + split; [done|]. by rewrite Hp', Hm.
Qed.

(** Any call of [_save_last_update_id] leaves the checkpoint file as it
    was or stores the value it was given. *)
Lemma save_cases update_id r s :
  files (fst (_save_last_update_id update_id r s)) = files s
  \/ stored_checkpoint (fst (_save_last_update_id update_id r s)) = update_id.
Proof.
  unfold _save_last_update_id, try_except, bind, utcnow.
  pose proof (no_exit_create_or_update checkpoint_path
    (Dumps (JCheckpoint {| last_update_id := update_id;
                           updated_at := clock s |}))
    ("Update last processed update ID to " +:+ (pretty update_id))
    r (tick s)) as Hne.
  destruct (create_or_update_files checkpoint_path
    (Dumps (JCheckpoint {| last_update_id := update_id;
                           updated_at := clock s |}))
    ("Update last processed update ID to " +:+ (pretty update_id))
    r (tick s)) as [[Hf _]|[Hok Hf]].
  - destruct (_github_create_or_update_file _ _ _ r (tick s)) as [s' [[]|e]];
      simpl in *; [by left|].
    destruct e; simpl; auto.
  - destruct (_github_create_or_update_file _ _ _ r (tick s)) as [s' x].
    simpl in *. subst x. right. unfold stored_checkpoint. simpl.
    rewrite Hf. by rewrite lookup_insert_eq.
Qed.

(** C2 (amended).  The checkpoint is written only once the loop over the
    batch is over, and it is written whether or not the queue writes went
    through.  A run that got a non-empty batch always returns normally; the
    loop leaves the checkpoint file alone; and when GitHub answers on the
    checkpoint path the checkpoint is advanced to the batch's last
    [update_id].  When the writes on the queue are refused with an error
    status other than 404, each accepted message still gets its one write
    attempt, the error of each is caught and printed for that message
    ("Error processing message"), the queue is as it was, and the run
    reports zero processed messages. *)
Theorem checkpoint_saved_after_every_attempt self r s us :
  fate r (sent s) (GetUpdates (self_last_update_id self + 1)) = Served ->
  tg_updates r (self_last_update_id self + 1) = us -> us <> [] ->
  let merged := fst (for_updates us 0%nat (self_last_update_id self) r
                       (loop_start self us s)) in
  let last_id := final_id us (self_last_update_id self) in
  let out := run self r s in
  snd out = Ok tt
  /\ exit_status (snd out) = 0
  /\ stored_checkpoint merged = stored_checkpoint s
  /\ (stored_checkpoint (fst out) = stored_checkpoint s
      \/ (self_last_update_id self < last_id
          /\ stored_checkpoint (fst out) = last_id))
  /\ (serves r checkpoint_path -> self_last_update_id self < last_id ->
      stored_checkpoint (fst out) = last_id)
  /\ (forall code, code <> 404 -> refuses r pending_path code ->
      pending_usable s ->
      queue (fst out) = queue s
      /\ (forall m, m ∈ accepted us ->
            Printed (ErrorProcessingMessage (message_id m) (HTTPError code))
              ∈ trace (fst out))
      /\ length (puts_on pending_path (trace (fst out)))
         = (length (puts_on pending_path (trace s))
            + length (accepted us))%nat
      /\ last (trace (fst out)) = Some (Printed (Processed 0))).
Proof.
  intros F E Hne merged last_id out.
  destruct (run_nonempty self r s us F E Hne) as (c & Hc & Hrun).
  fold merged last_id in Hrun, Hc. subst out. rewrite Hrun. cbn [fst snd].
  rewrite stored_checkpoint_log, queue_log.
  assert (Hk : stored_checkpoint merged = stored_checkpoint s).
  { apply stored_checkpoint_keeps.
    etrans; [|apply for_updates_keeps_checkpoint]. done. }
  split; [done|]. split; [done|]. split; [done|].
  assert (Hrefused : forall code, code <> 404 ->
    refuses r pending_path code -> pending_usable s ->
    c = 0%nat
    /\ queue merged = queue s
    /\ (forall m, m ∈ accepted us ->
          Printed (ErrorProcessingMessage (message_id m) (HTTPError code))
            ∈ trace merged)
    /\ length (puts_on pending_path (trace merged))
       = (length (puts_on pending_path (trace s)) + length (accepted us))%nat).
  { intros code Hcode Hr U.
    destruct (for_updates_refused us 0%nat (self_last_update_id self) r
                (loop_start self us s) code Hcode Hr)
      as (Hx & Hkq & Hl & Hp); [done|].
    fold merged in Hkq, Hl, Hp. rewrite Hx in Hc.
    split; [by simplify_eq|]. split; [by rewrite (queue_keeps _ _ Hkq)|].
    split; [done|]. rewrite Hp. unfold loop_start, fetched. simpl.
    rewrite !puts_on_app. simpl. by rewrite !app_nil_r. }
  split; [|split].
  - destruct (last_id >? self_last_update_id self) eqn:Hgt; [|by left].
    destruct (save_cases last_id r merged) as [Hf|Hv].
    + left. by rewrite (stored_checkpoint_files _ _ Hf).
    + right. split; [lia | done].
  - intros Hs Hlt.
    destruct (last_id >? self_last_update_id self) eqn:Hgt; [|lia].
    by apply save_served.
  - intros code Hcode Hr U.
    destruct (Hrefused code Hcode Hr U) as (-> & Hq & Hl & Hp).
    rewrite puts_on_log.
    split; [|split; [|split]].
    + destruct (last_id >? self_last_update_id self); [|done].
      by rewrite (queue_keeps _ _ (save_keeps_pending last_id r merged)).
    + intros m Hm. simpl. apply elem_of_app. left.
      destruct (last_id >? self_last_update_id self); [|by apply Hl].
      eapply grows_elem; [apply save_grows | by apply Hl].
    + destruct (last_id >? self_last_update_id self); [|done].
      by rewrite (quiet_puts _ _ _ (save_quiet last_id r merged)).
    + simpl. by rewrite last_snoc.
Qed.

Lemma checkpoint_saved_after_every_attempt_witness :
  exit_status
    (snd (run {| self_last_update_id := 0 |}
            (Sample.failing [Sample.u101]
               (Sample.writes_to pending_path) 409)
            Sample.fresh)) = 0
  /\ stored_checkpoint
       (fst (run {| self_last_update_id := 0 |}
               (Sample.failing [Sample.u101]
                  (Sample.writes_to pending_path) 409)
               Sample.fresh)) = 101
  /\ Printed (ErrorProcessingMessage 5 (HTTPError 409))
       ∈ trace (fst (run {| self_last_update_id := 0 |}
                       (Sample.failing [Sample.u101]
                          (Sample.writes_to pending_path) 409)
                       Sample.fresh)).
Proof.
  destruct (checkpoint_saved_after_every_attempt
              {| self_last_update_id := 0 |}
              (Sample.failing [Sample.u101]
                 (Sample.writes_to pending_path) 409)
              Sample.fresh [Sample.u101])
    as (_ & Hexit & _ & _ & Hcp & Hlog).
  - reflexivity.
  - reflexivity.
  - discriminate.
  - split; [exact Hexit|]. split.
    + apply Hcp.
      * intros n rq H. destruct rq; simpl in *; try discriminate;
          injection H as ->; reflexivity.
      * vm_compute. reflexivity.
    + destruct (Hlog 409) as (_ & Hl & _).
      * discriminate.
      * intros n rq Hput Hpath. destruct rq; simpl in *; try discriminate.
        injection Hpath as ->. reflexivity.
      * intros f c. vm_compute. discriminate.
      * apply (Hl Sample.hello). vm_compute.
        apply list_elem_of_singleton. reflexivity.
Defined.

(** C2 as stated fails: the one queue write of this run is refused with
    409, yet the run exits with status zero and the checkpoint moves from
    0 to 101, so the message is not fetched again. *)
Lemma queue_write_failure_neither_fails_run_nor_holds_checkpoint :
  let r := Sample.failing [Sample.u101] (Sample.writes_to pending_path) 409 in
  let out := main r Sample.fresh in
  puts_on pending_path (trace (fst out)) <> []
  /\ queue (fst out) = []
  /\ Printed (ErrorProcessingMessage 5 (HTTPError 409)) ∈ trace (fst out)
  /\ exit_status (snd out) = 0
  /\ stored_checkpoint Sample.fresh = 0
  /\ stored_checkpoint (fst out) = 101.
Proof. vm_compute. repeat split; try done. set_solver. Qed.

(** The write of the merge carries the tag the file had when the merge
    started, or none for a file that did not exist. *)
Lemma add_to_pending_queue_conditioned md r s :
  serves r pending_path -> pending_usable s ->
  exists body,
    sends [ContentsGET pending_path; ContentsGET pending_path;
           ContentsPUT pending_path body (sha <$> files s !! pending_path)
             ("Add pending message " +:+ md_id md)]
      s (fst (add_to_pending_queue md r s)).
Proof.
  intros H U. unfold add_to_pending_queue, bind at 1.
  rewrite get_file_served by (by apply H).
  specialize (U) as U'. unfold pending_usable in U'. unfold sends.
  destruct (files s !! pending_path) as [[[[c|d]|b] tag]|] eqn:E; simpl.
  - by destruct (U' _ c eq_refl).
  - unfold bind, try_except, utcnow, print. simpl.
    rewrite create_or_update_served by done. simpl. rewrite E.
    eexists. rewrite !requests_app. simpl.
    rewrite !app_nil_r, <- !app_assoc. reflexivity.
  - destruct (negb (String.eqb b "")); simpl;
      unfold bind, try_except, utcnow, print; simpl;
      rewrite create_or_update_served by done; simpl; rewrite E;
      eexists; rewrite !requests_app; simpl;
      rewrite !app_nil_r, <- !app_assoc; reflexivity.
  - unfold bind, try_except, utcnow, print. simpl.
    rewrite create_or_update_served by done. simpl. rewrite E.
    eexists. rewrite !requests_app. simpl.
    rewrite !app_nil_r, <- !app_assoc. reflexivity.
Qed.

Lemma built_from_ids r recs ms :
  Forall2 (built_from r) recs ms -> md_id <$> recs = derived_id <$> ms.
Proof.
  induction 1 as [|md m recs ms (u & t & imgs & _ & -> & _) _ IH]; [done|].
  by rewrite !fmap_cons, IH.
Qed.

(** What a run leaves in the queue when Telegram and GitHub answer on
    the batch and on the queue path. *)
Lemma run_queue self r s :
  fate r (sent s) (GetUpdates (self_last_update_id self + 1)) = Served ->
  serves r pending_path -> pending_usable s ->
  exists recs,
    queue (fst (run self r s)) = queue s ++ recs
    /\ Forall2 (built_from r) recs
         (accepted (tg_updates r (self_last_update_id self + 1)))
    /\ pending_usable (fst (run self r s)).
Proof.
  intros F H U.
  destruct (tg_updates r (self_last_update_id self + 1)) as [|u us] eqn:E.
  - rewrite run_empty by done. exists []. rewrite app_nil_r. by repeat split.
  - destruct (run_nonempty self r s (u :: us) F E) as (c & Hc & ->); [done|].
    cbn [fst snd].
    destruct (for_updates_served (u :: us) 0%nat (self_last_update_id self)
                r (loop_start self (u :: us) s) H U)
      as (recs & _ & Hq & Hb & _ & U').
    exists recs. rewrite queue_log.
    destruct (_ >? _).
    + pose proof (save_keeps_pending
        (final_id (u :: us) (self_last_update_id self)) r
        (fst (for_updates (u :: us) 0%nat (self_last_update_id self) r
                (loop_start self (u :: us) s)))) as Hk.
      rewrite (queue_keeps _ _ Hk). split; [done|]. split; [done|].
      by apply (pending_usable_keeps _ _ Hk).
    + by repeat split.
Qed.

Lemma NoDup_app_twice {A} (l k : list A) :
  NoDup (l ++ k ++ k) <-> k = [] /\ NoDup l.
Proof.
  split.
  - intros Hnd. destruct k as [|x k].
    + by rewrite !app_nil_r in Hnd.
    + apply NoDup_app in Hnd as (_ & _ & Hnd).
      apply NoDup_app in Hnd as (_ & Hd & _).
      destruct (Hd x); set_solver.
  - intros [-> ?]. by rewrite !app_nil_r.
Qed.

(** C1 (amended).  Two runs in a row from the same loaded checkpoint, with
    Telegram and GitHub answering on the batch and on the queue path, both
    append the batch's records: the ids in the queue are then the ids that
    were there, followed by the derived ids of the batch twice.  The
    derived ids of the two runs are the same, but the merge does not skip
    an id that is already present, so the queue is free of duplicate ids
    only when the batch yields no record. *)
Theorem rerun_appends_the_batch_again self r s :
  (forall n, fate r n (GetUpdates (self_last_update_id self + 1)) = Served) ->
  serves r pending_path -> pending_usable s ->
  let ids :=
    derived_id <$> accepted (tg_updates r (self_last_update_id self + 1)) in
  let once := fst (run self r s) in
  let twice := fst (run self r once) in
  queue_ids once = queue_ids s ++ ids
  /\ queue_ids twice = queue_ids s ++ ids ++ ids
  /\ (NoDup (queue_ids twice) <-> ids = [] /\ NoDup (queue_ids s)).
Proof.
  intros F H U ids once twice.
  destruct (run_queue self r s (F _) H U) as (recs1 & Hq1 & Hb1 & U1).
  destruct (run_queue self r once (F _) H U1) as (recs2 & Hq2 & Hb2 & _).
  assert (H1 : queue_ids once = queue_ids s ++ ids).
  { unfold queue_ids, once. rewrite Hq1, fmap_app.
    by rewrite (built_from_ids _ _ _ Hb1). }
  assert (H2 : queue_ids twice = queue_ids s ++ ids ++ ids).
  { unfold queue_ids at 1. unfold twice. rewrite Hq2, fmap_app.
    fold (queue_ids once). rewrite H1, <- app_assoc.
    by rewrite (built_from_ids _ _ _ Hb2). }
  split; [done|]. split; [done|]. rewrite H2. apply NoDup_app_twice.
Qed.

Lemma rerun_appends_the_batch_again_witness :
  queue_ids
    (fst (run {| self_last_update_id := 0 |} (Sample.reliable [Sample.u101])
            (fst (run {| self_last_update_id := 0 |}
                    (Sample.reliable [Sample.u101]) Sample.fresh))))
  = queue_ids Sample.fresh
      ++ (derived_id <$> accepted [Sample.u101])
      ++ (derived_id <$> accepted [Sample.u101]).
Proof.
  destruct (rerun_appends_the_batch_again {| self_last_update_id := 0 |}
              (Sample.reliable [Sample.u101]) Sample.fresh)
    as (_ & H2 & _).
  - reflexivity.
  - intros n rq _. reflexivity.
  - intros f c. vm_compute. discriminate.
  - exact H2.
Defined.

(** C1 as stated fails: the first run cannot save its checkpoint, the
    second run starts from the same checkpoint and fetches the same
    batch, and the queue then holds the same derived id twice. *)
Lemma crash_and_retry_duplicates_ids :
  let r := Sample.failing [Sample.u101]
             (Sample.writes_to checkpoint_path) 500 in
  let once := fst (main r Sample.fresh) in
  let twice := fst (main r once) in
  stored_checkpoint once = stored_checkpoint Sample.fresh
  /\ queue_ids once = ["msg_1700000000_5"]
  /\ queue_ids twice = ["msg_1700000000_5"; "msg_1700000000_5"].
Proof. vm_compute. done. Qed.

(** C3 (amended).  The queue merge is one read-modify-write per record,
    in arrival order, not one batched append: [add_to_pending_queue]
    sends three requests whatever becomes of them, the read of the
    document, the read of its version tag and one write.  When GitHub
    answers on the queue path, the document read is the current one (an
    absent, empty or unparseable file counts as an empty document), the
    record is appended at its end whether or not its id is already there,
    and the write carries the tag of the current file, so that a batch
    costs as many writes as it yields records and extends the queue by
    them in arrival order.  A write refused with an error status other
    than 404 (a version conflict included) is not attempted again: the
    error is raised at once and no file has changed; the loop's handler
    prints it and goes on without the record and without counting it. *)
Theorem queue_merge_is_one_write_per_record us n start md m r s :
  pending_usable s ->
  let batch := for_updates us n start r s in
  let one := add_to_pending_queue md r s in
  let step := ingest m n r s in
  (exists body tag,
     sends [ContentsGET pending_path; ContentsGET pending_path;
            ContentsPUT pending_path body tag
              ("Add pending message " +:+ md_id md)] s (fst one))
  /\ (serves r pending_path ->
      snd one = Ok tt
      /\ queue (fst one) = queue s ++ [md]
      /\ queue_ids (fst one) = queue_ids s ++ [md_id md]
      /\ (exists body,
            sends [ContentsGET pending_path; ContentsGET pending_path;
                   ContentsPUT pending_path body
                     (sha <$> files s !! pending_path)
                     ("Add pending message " +:+ md_id md)] s (fst one))
      /\ exists recs,
           queue (fst batch) = queue s ++ recs
           /\ Forall2 (built_from r) recs (accepted us)
           /\ length (puts_on pending_path (trace (fst batch)))
              = (length (puts_on pending_path (trace s))
                 + length (accepted us))%nat)
  /\ (forall code, code <> 404 ->
      (forall body tag,
         fate r (S (S (sent s)))
           (ContentsPUT pending_path body tag
              ("Add pending message " +:+ md_id md)) = Status code) ->
      snd one = Raise (HTTPError code) /\ files (fst one) = files s)
  /\ (forall code, code <> 404 -> refuses r pending_path code ->
      is_Some (sender m) ->
      snd step = Ok n
      /\ queue (fst step) = queue s
      /\ last (trace (fst step))
         = Some (Printed (ErrorProcessingMessage (message_id m)
                            (HTTPError code)))
      /\ length (puts_on pending_path (trace (fst step)))
         = S (length (puts_on pending_path (trace s)))).
Proof.
  intros U batch one step.
  destruct (add_to_pending_queue_once md r s U) as [Hsends Hrefused].
  split; [done|]. split; [|split; [done|]].
  - intros H.
    destruct (add_to_pending_queue_served md r s H U) as (s' & E & Hq & _).
    pose proof (add_to_pending_queue_conditioned md r s H U) as Hc.
    destruct (for_updates_served us n start r s H U)
      as (recs & _ & Hqs & Hb & Hp & _).
    subst one. rewrite E in Hc |- *. cbn [fst snd] in *.
    split; [done|]. split; [done|].
    split; [unfold queue_ids; by rewrite Hq, fmap_app|].
    split; [done|]. by exists recs.
  - intros code Hcode Hr [usr Hu].
    destruct (ingest_refused m n r s code Hcode Hr U) as (Hx & Hk & Hm).
    rewrite Hu in Hm. destruct Hm as [Hlast Hp].
    split; [done|]. split; [by apply queue_keeps|]. done.
Qed.

Lemma queue_merge_is_one_write_per_record_witness :
  length (puts_on pending_path
            (trace (fst (for_updates [Sample.u101; Sample.u104] 0%nat 0
                           (Sample.reliable [Sample.u101; Sample.u104])
                           Sample.fresh))))
  = (length (puts_on pending_path (trace Sample.fresh))
     + length (accepted [Sample.u101; Sample.u104]))%nat.
Proof.
  destruct (queue_merge_is_one_write_per_record
              [Sample.u101; Sample.u104] 0%nat 0
              (record_of Sample.hello Sample.alice 1000 []) Sample.hello
              (Sample.reliable [Sample.u101; Sample.u104]) Sample.fresh)
    as (_ & Hserved & _).
  - intros f c. vm_compute. discriminate.
  - destruct Hserved as (_ & _ & _ & _ & recs & _ & _ & Hp).
    + intros k rq _. reflexivity.
    + exact Hp.
Defined.

(** C3 as stated fails: a batch of two records is merged by two writes,
    and the second write, answered with 409, is followed by no further
    read or write of the queue: its record is dropped, the run exits with
    status zero and the checkpoint advances past it. *)
Lemma two_records_two_writes_and_no_retry :
  let r := Sample.failing [Sample.u101; Sample.u104]
             (fun n rq => Sample.writes_to pending_path n rq
                          && bool_decide (n = 7)%nat) 409 in
  let out := main r Sample.fresh in
  length (accepted [Sample.u101; Sample.u104]) = 2%nat
  /\ length (puts_on pending_path (trace (fst out))) = 2%nat
  /\ fate r 4 <$> puts_on pending_path (trace (fst out)) !! 0%nat = Some Served
  /\ fate r 7 <$> puts_on pending_path (trace (fst out)) !! 1%nat
     = Some (Status 409)
  /\ length (requests (trace (fst out))) = 10%nat
  /\ queue_ids (fst out) = ["msg_1700000000_5"]
  /\ exit_status (snd out) = 0
  /\ stored_checkpoint (fst out) = 104.
Proof. vm_compute. done. Qed.

(** ** Skipped messages *)

(** The loop's state and count do not depend on the [last_id] it starts
    with. *)
Lemma for_updates_start_indep us n r s :
  exists s' c, forall start,
    for_updates us n start r s = (s', Ok (c, final_id us start)).
Proof.
  destruct us as [|u us].
  - by exists s, n.
  - destruct (for_updates_last_id (u :: us) n 0 r s) as [c Hc].
    destruct (for_updates (u :: us) n 0 r s) as [s' x] eqn:E.
    simpl in Hc. subst x. exists s', c. intros start.
    change (for_updates (u :: us) n start r s)
      with (for_updates (u :: us) n 0 r s).
    by rewrite E.
Qed.

Lemma for_updates_skip pre u m post r :
  message u = Some m -> skipped m = true ->
  forall n s, exists s' c,
    (forall start,
       for_updates (pre ++ u :: post) n start r s
       = (s', Ok (c, final_id (pre ++ u :: post) start)))
    /\ (forall start,
          for_updates (pre ++ post) n start r s
          = (s', Ok (c, final_id (pre ++ post) start))).
Proof.
  intros Hm Hs. unfold skipped in Hs.
  induction pre as [|p pre IH]; intros n s.
  - destruct (for_updates_start_indep post n r s) as (s' & c & H).
    exists s', c. split; [|done]. intros start. simpl. rewrite Hm.
    destruct (from_bot m); [apply H|]. simpl in Hs. rewrite Hs. apply H.
  - assert (Hstep : forall n s, exists s' c,
      (forall start : Z,
         for_updates (pre ++ u :: post) n (update_id p) r s
         = (s', Ok (c, final_id (pre ++ u :: post) (update_id p))))
      /\ (forall start : Z,
            for_updates (pre ++ post) n (update_id p) r s
            = (s', Ok (c, final_id (pre ++ post) (update_id p))))).
    { intros n0 s0. destruct (IH n0 s0) as (s' & c & H1 & H2).
      exists s', c. split; intros _; [apply H1 | apply H2]. }
    simpl. destruct (message p) as [mp|]; [|by apply Hstep].
    destruct (from_bot mp); [by apply Hstep|].
    destruct (no_content mp); [by apply Hstep|].
    unfold bind.
    destruct (never_raises_ingest mp n r s) as [n1 Hn].
    destruct (ingest mp n r s) as [s1 x]. simpl in Hn. subst x.
    apply Hstep.
Qed.

Lemma final_id_from us low start :
  ascending_from low us = true ->
  (low <= start -> low <= final_id us start)
  /\ (forall u, u ∈ us -> update_id u <= final_id us start).
Proof.
  revert low start. induction us as [|a us IH]; intros low start H.
  - split; [done|]. intros u Hu. by apply elem_of_nil in Hu.
  - simpl in H. apply andb_prop in H as [Hlow H].
    destruct (IH (update_id a) (update_id a) H) as [Hge Hall].
    change (final_id (a :: us) start) with (final_id us (update_id a)).
    split; [lia|]. intros u Hu. apply elem_of_cons in Hu as [->|Hu].
    + lia.
    + by apply Hall.
Qed.

Lemma final_id_ge us u start :
  ascending us = true -> u ∈ us -> update_id u <= final_id us start.
Proof.
  destruct us as [|a us]; intros Ha Hin; [by apply elem_of_nil in Hin|].
  apply (final_id_from (a :: us) (update_id a) start); [|done].
  simpl. by rewrite Z.leb_refl.
Qed.

(** A run that got a non-empty batch returns normally, and stores the
    batch's last [update_id] when that is above the loaded one and GitHub
    answers on the checkpoint path. *)
Lemma run_saves self r s us :
  fate r (sent s) (GetUpdates (self_last_update_id self + 1)) = Served ->
  tg_updates r (self_last_update_id self + 1) = us -> us <> [] ->
  snd (run self r s) = Ok tt
  /\ (serves r checkpoint_path ->
      self_last_update_id self < final_id us (self_last_update_id self) ->
      stored_checkpoint (fst (run self r s))
      = final_id us (self_last_update_id self)).
Proof.
  intros F E Hne.
  destruct (run_nonempty self r s us F E Hne) as (c & Hc & ->).
  cbn [fst snd]. split; [done|]. intros H Hlt.
  rewrite stored_checkpoint_log.
  assert (Hgt : (final_id us (self_last_update_id self)
                 >? self_last_update_id self) = true) by lia.
  rewrite Hgt. by apply save_served.
Qed.

(** C5.  A message of the batch that is skipped (its sender is a bot, or
    it has neither text nor photo nor caption) costs nothing and leaves
    nothing: the loop ends in the same state, with the same count, as on
    the batch without it, whatever the remote side does.  Its
    [update_id] still counts: it is the loop's [last_id] when the message
    is the last of the batch, it is at most that [last_id] in a batch in
    ascending order, and that [last_id] is what the run stores as the
    checkpoint. *)
Theorem skipped_message_is_dropped_but_counted self r s pre u m post :
  message u = Some m -> skipped m = true ->
  let us := pre ++ u :: post in
  (forall n start s0, exists s' c,
     for_updates us n start r s0 = (s', Ok (c, final_id us start))
     /\ for_updates (pre ++ post) n start r s0
        = (s', Ok (c, final_id (pre ++ post) start)))
  /\ (post = [] -> forall start, final_id us start = update_id u)
  /\ (fate r (sent s) (GetUpdates (self_last_update_id self + 1)) = Served ->
      tg_updates r (self_last_update_id self + 1) = us ->
      ascending us = true -> self_last_update_id self < update_id u ->
      snd (run self r s) = Ok tt
      /\ update_id u <= final_id us (self_last_update_id self)
      /\ (serves r checkpoint_path ->
          stored_checkpoint (fst (run self r s))
          = final_id us (self_last_update_id self))).
Proof.
  intros Hm Hs us. split; [|split].
  - intros n start s0.
    destruct (for_updates_skip pre u m post r Hm Hs n s0) as (s' & c & H1 & H2).
    by exists s', c.
  - intros -> start. unfold us, final_id. by rewrite foldl_app.
  - intros F E Ha Hlt.
    assert (Hne : us <> []) by (unfold us; by destruct pre).
    assert (Hge : update_id u <= final_id us (self_last_update_id self)).
    { apply final_id_ge; [done|]. unfold us. set_solver. }
    destruct (run_saves self r s us F E Hne) as (Hok & Hcp).
    split; [done|]. split; [done|]. intros H. apply Hcp; [done|lia].
Qed.

Lemma skipped_message_is_dropped_but_counted_witness :
  fst (for_updates [Sample.u101; Sample.u102] 0%nat 100
         (Sample.reliable [Sample.u101; Sample.u102]) Sample.fresh)
  = fst (for_updates [Sample.u101] 0%nat 100
           (Sample.reliable [Sample.u101; Sample.u102]) Sample.fresh)
  /\ stored_checkpoint
       (fst (run {| self_last_update_id := 100 |}
               (Sample.reliable [Sample.u101; Sample.u102]) Sample.fresh))
     = 102.
Proof.
  destruct (skipped_message_is_dropped_but_counted
              {| self_last_update_id := 100 |}
              (Sample.reliable [Sample.u101; Sample.u102]) Sample.fresh
              [Sample.u101] Sample.u102 Sample.ignored [])
    as (Hloop & _ & Hrun).
  - reflexivity.
  - reflexivity.
  - split.
    + destruct (Hloop 0%nat 100 Sample.fresh) as (s' & c & H1 & H2).
      transitivity s'; [exact (f_equal fst H1) | exact (eq_sym (f_equal fst H2))].
    + destruct Hrun as (_ & _ & Hcp).
      * reflexivity.
      * reflexivity.
      * reflexivity.
      * reflexivity.
      * apply Hcp. intros n rq _. reflexivity.
Defined.

(** ** Attachments that cannot be had *)

Lemma elem_of_accepted us u m :
  u ∈ us -> message u = Some m -> skipped m = false ->
  is_Some (sender m) -> m ∈ accepted us.
Proof.
  intros Hu Hm Hs Hsender. unfold accepted, kept.
  apply list_elem_of_filter. split; [done|].
  apply list_elem_of_filter. split; [done|].
  apply list_elem_of_omap. by exists u.
Qed.

Lemma content_of_caption message :
  truthy_str (text message) = false ->
  content_of message = default "" (caption message).
Proof.
  unfold content_of, truthy_str. destruct (text message) as [t|]; [|done].
  by destruct (String.eqb t "").
Qed.

(** C6.  When the attachment of a kept message cannot be had (the
    [getFile] request fails or names no path, or the download fails),
    [_process_image] returns [None] rather than raising; with GitHub
    answering on the queue and on the checkpoint, the run returns
    normally, the queue holds the message's record with no image and
    with the content of the message (its caption, when it has no text),
    and the stored checkpoint is at or above the message's [update_id]. *)
Theorem attachment_failure_degrades_to_text_only self r s us u m usr :
  fate r (sent s) (GetUpdates (self_last_update_id self + 1)) = Served ->
  tg_updates r (self_last_update_id self + 1) = us ->
  serves r pending_path -> serves r checkpoint_path -> pending_usable s ->
  ascending us = true -> self_last_update_id self < update_id u ->
  u ∈ us -> message u = Some m -> skipped m = false ->
  sender m = Some usr ->
  (forall n, attachment_fails r n m) ->
  let out := run self r s in
  (forall id s0, snd (_process_image m id r s0) = Ok None)
  /\ snd out = Ok tt
  /\ exit_status (snd out) = 0
  /\ (exists t, record_of m usr t [] ∈ queue (fst out))
  /\ (forall t, md_images (record_of m usr t []) = []
                /\ md_content (record_of m usr t []) = content_of m)
  /\ (truthy_str (text m) = false ->
      content_of m = default "" (caption m))
  /\ update_id u <= stored_checkpoint (fst out).
Proof.
  intros F E Hq Hc U Ha Hlt Hu Hm Hs Hsender Hfail out.
  assert (Hne : us <> []) by (intros ->; by apply elem_of_nil in Hu).
  pose proof (final_id_ge us u (self_last_update_id self) Ha Hu) as Hge.
  destruct (run_saves self r s us F E Hne) as (Hok & Hcp).
  destruct (run_queue self r s F Hq U) as (recs & Hrecs & Hb & _).
  rewrite E in Hb. subst out.
  split; [intros id s0; by apply process_image_fails|].
  split; [done|]. split; [by rewrite Hok|].
  split; [|split; [done|split; [apply content_of_caption|]]].
  - assert (Hin : m ∈ accepted us).
    { eapply elem_of_accepted; eauto. }
    apply list_elem_of_lookup in Hin as [i Hi].
    destruct (Forall2_lookup_r _ _ _ _ _ Hb Hi)
      as (md & Hmd & u' & t & imgs & Hs' & -> & _ & Himgs).
    rewrite Hsender in Hs'. injection Hs' as <-.
    rewrite (Himgs Hfail) in Hmd.
    exists t. rewrite Hrecs. apply elem_of_app. right.
    by eapply list_elem_of_lookup_2.
  - rewrite Hcp by (done || lia). done.
Qed.

Lemma attachment_failure_degrades_to_text_only_witness :
  exit_status
    (snd (run {| self_last_update_id := 102 |}
            (Sample.failing [Sample.u103] Sample.downloads 500)
            Sample.fresh)) = 0
  /\ (exists t,
        record_of Sample.pic Sample.alice t []
        ∈ queue (fst (run {| self_last_update_id := 102 |}
                        (Sample.failing [Sample.u103] Sample.downloads 500)
                        Sample.fresh)))
  /\ content_of Sample.pic = "pic"
  /\ 103 <= stored_checkpoint
              (fst (run {| self_last_update_id := 102 |}
                      (Sample.failing [Sample.u103] Sample.downloads 500)
                      Sample.fresh)).
Proof.
  destruct (attachment_failure_degrades_to_text_only
              {| self_last_update_id := 102 |}
              (Sample.failing [Sample.u103] Sample.downloads 500)
              Sample.fresh [Sample.u103] Sample.u103 Sample.pic Sample.alice)
    as (_ & _ & Hexit & Hrec & _ & Hcontent & Hcp).
  - reflexivity.
  - reflexivity.
  - intros n rq H. destruct rq; simpl in *; try discriminate; reflexivity.
  - intros n rq H. destruct rq; simpl in *; try discriminate; reflexivity.
  - intros f c. vm_compute. discriminate.
  - reflexivity.
  - reflexivity.
  - apply list_elem_of_singleton. reflexivity.
  - reflexivity.
  - reflexivity.
  - reflexivity.
  - intros n p _. right. simpl. discriminate.
  - split; [exact Hexit|]. split; [exact Hrec|].
    split; [exact (Hcontent eq_refl) | exact Hcp].
Defined.

(** ** The checkpoint across runs *)

(** Whatever the remote side does, a run leaves the stored checkpoint as
    it was or stores a value above the one it loaded. *)
Lemma run_checkpoint_cases self r s :
  stored_checkpoint (fst (run self r s)) = stored_checkpoint s
  \/ self_last_update_id self < stored_checkpoint (fst (run self r s)).
Proof.
  set (out := run self r s).
  assert (Eo : out = run self r s) by done. clearbody out.
  unfold run, try_except, bind at 1, print at 1 in Eo.
  unfold bind at 1 in Eo.
  pose proof (fetch_reads_only self r (log (Printed Starting) s)) as [Hf _].
  pose proof (no_exit_fetch_updates self r (log (Printed Starting) s)) as Hne.
  destruct (fetch_updates self r (log (Printed Starting) s)) as [s1 [us|e]];
    simpl in Hf, Hne.
  - destruct us as [|u us].
    + left. subst out. simpl. by apply stored_checkpoint_files.
    + unfold bind at 1, print at 1 in Eo. unfold bind at 1 in Eo.
      destruct (for_updates_last_id (u :: us) 0%nat (self_last_update_id self)
                  r (log (Printed (Found (length (u :: us)))) s1)) as [c Hc].
      pose proof (for_updates_keeps_checkpoint (u :: us) 0%nat
                    (self_last_update_id self) r
                    (log (Printed (Found (length (u :: us)))) s1)) as Hk.
      destruct (for_updates (u :: us) 0%nat (self_last_update_id self) r
                  (log (Printed (Found (length (u :: us)))) s1)) as [s3 x].
      simpl in Hc, Hk. subst x. cbn [fst snd] in Eo. unfold bind in Eo.
      assert (H3 : stored_checkpoint s3 = stored_checkpoint s).
      { rewrite (stored_checkpoint_keeps _ _ Hk).
        by apply stored_checkpoint_files. }
      destruct (final_id us (update_id u) >? self_last_update_id self) eqn:Hgt.
      * destruct (never_raises_save (final_id us (update_id u)) r s3)
          as [[] Hs].
        destruct (save_cases (final_id us (update_id u)) r s3) as [Hsf|Hv];
          destruct (_save_last_update_id (final_id us (update_id u)) r s3)
            as [s4 y]; simpl in *; subst y out; simpl.
        -- left. rewrite <- H3. by apply stored_checkpoint_files.
        -- right. apply Z.gtb_lt in Hgt.
           change (self_last_update_id self < stored_checkpoint s4).
           by rewrite Hv.
      * left. subst out. simpl. done.
  - left. subst out.
    destruct e; simpl; by apply stored_checkpoint_files.
Qed.

Lemma main_checkpoint_cases r s :
  stored_checkpoint (fst (main r s)) = stored_checkpoint s
  \/ exists s1 self,
       __init__ r s = (s1, Ok self)
       /\ self_last_update_id self < stored_checkpoint (fst (main r s)).
Proof.
  unfold main, bind.
  destruct (environ r) eqn:He.
  - destruct (init_cases r s He) as (s1 & v & Hi & [Hf _] & _).
    rewrite Hi.
    destruct (run_checkpoint_cases {| self_last_update_id := v |} r s1)
      as [H|H].
    + left. rewrite H. by apply stored_checkpoint_files.
    + right. by exists s1, {| self_last_update_id := v |}.
  - rewrite (init_unset r s He). by left.
Qed.

(** C7 (amended).  No run, whatever fails, stores a checkpoint that is
    not above the one it loaded; a run whose read of the checkpoint file
    is answered loads the stored value (0 for an absent or unparseable
    file), so across any sequence of runs whose reads of the checkpoint
    are answered the stored value never decreases, runs that keep no
    message included. *)
Theorem checkpoint_monotone_when_read rs r s :
  (forall s1 self,
     __init__ r s = (s1, Ok self) ->
     stored_checkpoint (fst (main r s)) = stored_checkpoint s
     \/ self_last_update_id self < stored_checkpoint (fst (main r s)))
  /\ (fate r (sent s) (ContentsGET checkpoint_path) = Served ->
      stored_checkpoint s <= stored_checkpoint (fst (main r s)))
  /\ (Forall checkpoint_readable rs ->
      stored_checkpoint s <= stored_checkpoint (runs rs s)).
Proof.
  assert (Hone : forall r s,
    fate r (sent s) (ContentsGET checkpoint_path) = Served ->
    stored_checkpoint s <= stored_checkpoint (fst (main r s))).
  { intros r0 s0 F.
    destruct (main_checkpoint_cases r0 s0) as [->|(s1 & self & Hi & Hlt)];
      [done|].
    destruct (environ r0) eqn:He.
    - destruct (init_cases r0 s0 He) as (s1' & v & Hi' & _ & _ & _ & Hv).
      rewrite Hi in Hi'. simplify_eq. rewrite <- (Hv F). simpl in Hlt. lia.
    - rewrite (init_unset r0 s0 He) in Hi. discriminate. }
  split; [|split].
  - intros s1 self Hi.
    destruct (main_checkpoint_cases r s) as [?|(s1' & self' & Hi' & Hlt)];
      [by left|].
    rewrite Hi in Hi'. simplify_eq. by right.
  - apply Hone.
  - intros Hall. revert s. induction Hall as [|r0 rs Hr _ IH]; intros s.
    + done.
    + simpl. etrans; [apply (Hone r0 s), Hr|]. apply IH.
Qed.

Lemma checkpoint_monotone_when_read_witness :
  stored_checkpoint (Sample.at_checkpoint 100)
  <= stored_checkpoint
       (runs [Sample.reliable [Sample.u101; Sample.u102];
              Sample.reliable [Sample.u101; Sample.u102; Sample.u103]]
          (Sample.at_checkpoint 100)).
Proof.
  destruct (checkpoint_monotone_when_read
              [Sample.reliable [Sample.u101; Sample.u102];
               Sample.reliable [Sample.u101; Sample.u102; Sample.u103]]
              (Sample.reliable []) (Sample.at_checkpoint 100))
    as (_ & _ & Hruns).
  apply Hruns. repeat constructor.
Defined.

(** C7 as stated fails: the read of the checkpoint is answered with 500,
    [_github_get_file] turns that into [None] and the run loads 0 while
    the file holds 100; the batch ends at update 50, which is above 0, and
    50 replaces 100. *)
Lemma unread_checkpoint_regresses :
  let r := Sample.failing [Sample.u50] Sample.first_request 500 in
  let out := main r (Sample.at_checkpoint 100) in
  fate r 0 (ContentsGET checkpoint_path) = Status 500
  /\ stored_checkpoint (Sample.at_checkpoint 100) = 100
  /\ exit_status (snd out) = 0
  /\ stored_checkpoint (fst out) = 50.
Proof. vm_compute. done. Qed.

(** ** The record of a message *)

(** C4 (amended).  The record of a message with a sender is
    [record_of message u created_at imgs]: its derived id is composed of
    the message's [date] and [message_id] alone, and with every other
    field but two it is a function of the message, the same in any two
    calls.  The two are [created_at], which is the reading of the clock at
    the call, and the images, which are what the attachment step could
    fetch and store (none for a message without photo). *)
Theorem record_is_a_function_of_message_and_clock
    message u r1 s1 r2 s2 :
  sender message = Some u ->
  exists imgs1 imgs2,
    snd (process_message message r1 s1)
      = Ok (record_of message u (clock s1) imgs1)
    /\ snd (process_message message r2 s2)
        = Ok (record_of message u (clock s2) imgs2)
    /\ md_id (record_of message u (clock s1) imgs1)
       = "msg_" +:+ pretty (date message) +:+ "_"
           +:+ pretty (message_id message)
    /\ md_id (record_of message u (clock s2) imgs2)
       = md_id (record_of message u (clock s1) imgs1)
    /\ md_created_at (record_of message u (clock s1) imgs1) = clock s1
    /\ md_created_at (record_of message u (clock s2) imgs2) = clock s2
    /\ (truthy_photo (photo message) = false -> imgs1 = [] /\ imgs2 = []).
Proof.
  intros Hu.
  pose proof (process_message_result message r1 s1) as P1.
  pose proof (process_message_result message r2 s2) as P2.
  rewrite Hu in P1, P2.
  destruct P1 as (imgs1 & E1 & N1 & _). destruct P2 as (imgs2 & E2 & N2 & _).
  exists imgs1, imgs2. repeat split; auto.
Qed.

Lemma record_is_a_function_of_message_and_clock_witness :
  exists imgs1 imgs2,
    snd (process_message Sample.pic (Sample.reliable []) (Sample.fresh_at 1000))
      = Ok (record_of Sample.pic Sample.alice 1000 imgs1)
    /\ snd (process_message Sample.pic
              (Sample.failing [] Sample.downloads 500) (Sample.fresh_at 2000))
        = Ok (record_of Sample.pic Sample.alice 2000 imgs2).
Proof.
  destruct (record_is_a_function_of_message_and_clock Sample.pic Sample.alice
              (Sample.reliable []) (Sample.fresh_at 1000)
              (Sample.failing [] Sample.downloads 500) (Sample.fresh_at 2000))
    as (imgs1 & imgs2 & H1 & H2 & _).
  - reflexivity.
  - exists imgs1, imgs2. split; [exact H1 | exact H2].
Defined.

(** C4 as stated fails: the same message processed at clock readings 1000
    and 2000 gives two records that differ in [created_at]. *)
Lemma records_of_one_message_differ_by_clock :
  let early := snd (process_message Sample.hello (Sample.reliable [])
                      (Sample.fresh_at 1000)) in
  let late := snd (process_message Sample.hello (Sample.reliable [])
                     (Sample.fresh_at 2000)) in
  early = Ok (record_of Sample.hello Sample.alice 1000 [])
  /\ late = Ok (record_of Sample.hello Sample.alice 2000 [])
  /\ md_created_at (record_of Sample.hello Sample.alice 1000 []) = 1000
  /\ md_created_at (record_of Sample.hello Sample.alice 2000 []) = 2000
  /\ early <> late.
Proof. vm_compute. repeat split; discriminate. Qed.

(** ** The photo variant *)







(** C9.  The step's own comment says "Get largest photo", but no size is
    compared: with the two variants of a photo listed largest first, the
    variant selected, and the one asked of Telegram, is the smallest. *)
Lemma largest_first_selects_the_smallest :
  photo Sample.pic_reversed = Some [Sample.large; Sample.small]
  /\ select_photo Sample.pic_reversed = Ok Sample.small
  /\ width Sample.small * height Sample.small
     < width Sample.large * height Sample.large
  /\ file_size Sample.small = Some 1200
  /\ file_size Sample.large = Some 98000
  /\ head (requests (trace (fst (_process_image Sample.pic_reversed
                                   (derived_id Sample.pic_reversed)
                                   (Sample.reliable []) Sample.fresh))))
     = Some (GetFile (file_id Sample.small)).
Proof. vm_compute. done. Qed.

(** * Further properties of the script *)

(** ** How a run ends *)










(** ** What each step may write *)









(** ** The store helpers, whatever the requests' fate *)














(** ** Derived ids *)








(** ** Stored images *)

Lemma bind_ok {A B} (m : M A) (k : A -> M B) r s s' a :
  m r s = (s', Ok a) -> bind m k r s = k a r s'.
Proof. intros E. unfold bind. by rewrite E. Qed.

Lemma bind_raise {A B} (m : M A) (k : A -> M B) r s s' e :
  m r s = (s', Raise e) -> bind m k r s = (s', Raise e).
Proof. intros E. unfold bind. by rewrite E. Qed.

Lemma try_ok {A} (m : M A) h r s s' a :
  m r s = (s', Ok a) -> try_except m h r s = (s', Ok a).
Proof. intros E. unfold try_except. by rewrite E. Qed.

Lemma try_raise {A} (m : M A) h r s s' e :
  m r s = (s', Raise e) -> is_exception e -> try_except m h r s = h e r s'.
Proof. intros E He. unfold try_except. rewrite E. by destruct e. Qed.













